(** * Workflow engine: tool registry, condition evaluation and graph execution

    A shallow embedding of [app/core/models.py], [app/core/tool_registry.py]
    and [app/core/graph_engine.py].

    Python objects that are mutated in place (the payload mappings handed to
    tools and to condition expressions) live in an explicit store of mapping
    objects; everything else is passed by value.

    What is taken from the Python runtime rather than from the repository:
    - [eval] is a parameter ([py_eval]); an expression may write to the
      payload it is evaluated against;
    - a tool is a function from the content of the mapping it is called on to
      the content it leaves there and the object it returns or the exception
      it raises; it reaches no other mapping of the store;
    - exceptions are instances of [Exception]; [KeyboardInterrupt],
      [SystemExit] and the like, which no [except Exception] catches, are
      outside the model, and so are calls that do not return;
    - clock readings and uuids are parameters. *)

From Stdlib Require Import ZArith String DecimalString.
From stdpp Require Import gmap strings list fin_maps.

(* set_solver clears hypotheses by names that need not exist *)
#[local] Set Warnings "-clear-no-such-hyp".

Local Open Scope string_scope.
Local Open Scope list_scope.
Local Open Scope Z_scope.

(** ** Python values *)

(** The JSON-compatible values a payload holds. *)
#[warnings="-register-all"]
Inductive pyvalue : Type :=
  | PyNone
  | PyBool (b : bool)
  | PyInt (n : Z)
  | PyStr (s : string)
  | PyList (l : list pyvalue)
  | PyDict (m : gmap string pyvalue).

(** A [Dict[str, Any]]. *)
Abbreviation payload := (gmap string pyvalue).

(** [bool(v)]: standard truthiness. *)
Definition truthy (v : pyvalue) : bool :=
  match v with
  | PyNone => false
  | PyBool b => b
  | PyInt n => negb (n =? 0)
  | PyStr s => negb (String.eqb s "")
  | PyList l => match l with [] => false | _ :: _ => true end
  | PyDict m => negb (bool_decide (m = ∅))
  end.

(** Truthiness of a [str] and of an [Optional[str]], as used by [if x:],
    [if not x:] and [while x:]. *)
Definition str_truthy (s : string) : bool := negb (String.eqb s "").

Definition opt_truthy (o : option string) : bool :=
  match o with
  | None => false
  | Some s => str_truthy s
  end.

(** [str(n)] for an [int]. *)
Definition str_of_int (n : Z) : string := NilZero.string_of_int (Z.to_int n).

(** ** Exceptions *)

Inductive exception : Type :=
  | ValueError (msg : string)
  | KeyError (msg : string)
  | RuntimeError (msg : string)
  | ValidationError (msg : string)
  | Raised (text : string).
      (* an [Exception] of any other class; [text] is [str(e)] *)

Inductive outcome (A : Type) : Type :=
  | Return (a : A)
  | Raise (e : exception).
Arguments Return {A} a.
Arguments Raise {A} e.

(** ** The store of mapping objects *)

Abbreviation loc := nat (only parsing).
Abbreviation heap := (list (gmap string pyvalue)).

(** Content of the mapping at [l]. *)
Definition deref (h : heap) (l : loc) : payload := default ∅ (h !! l).

(** A newly created mapping object. *)
Definition alloc (h : heap) (p : payload) : heap * loc :=
  (h ++ [p], length h).

(** In-place update of the mapping at [l]. *)
Definition store (h : heap) (l : loc) (p : payload) : heap := <[l := p]> h.

(** [copy.deepcopy(d)]: a new object that shares nothing with [d]. *)
Definition deepcopy (h : heap) (l : loc) : heap * loc := alloc h (deref h l).

(** A pydantic [Dict[str, Any]] field: validation builds a new dict from the
    mapping passed to the constructor, so the model holds its own top-level
    object with the content the argument had at construction time. *)
Definition dict_field (h : heap) (l : loc) : heap * loc := alloc h (deref h l).

(** ** What the Python runtime provides *)

(** Result of [eval(condition, namespace)]. *)
Inductive eval_result : Type :=
  | EvalValue (v : pyvalue)
  | EvalRaises (text : string).

(** A call [tool(state)]. The callable receives the payload mapping itself
    and may change it in place before it returns an object or raises. *)
Inductive tool_result : Type :=
  | Returns (v : pyvalue)
  | Raises (text : string).

Record tool_effect : Type := mk_effect {
  mutated : payload;        (* content of the argument mapping after the call *)
  result : tool_result
}.

Abbreviation tool := (gmap string pyvalue -> tool_effect).

(** An object offered for registration. *)
Inductive pyobject : Type :=
  | Callable (f : tool)
  | NotCallable (v : pyvalue).

Definition datetime := Z.

Class PyRuntime : Type := {
  (** [eval(expr, {'state': state, '__builtins__': {...}})] against the
      mapping [state]: the content of [state] afterwards (an expression can
      call [state.pop], [state.update], ...) and the value or exception. *)
  py_eval : string -> payload -> payload * eval_result;
  (** [repr(s)] for a [str]. *)
  py_repr : string -> string;
  (** [datetime.now(timezone.utc)]; no property below looks at the reading. *)
  utcnow : datetime;
  (** [str(uuid.uuid4())]. *)
  uuid4 : string;
  (** Text of the pydantic error for an [output_state] that is no mapping. *)
  validation_text : pyvalue -> string
}.

(** [str(e)]. *)
Definition str_exc `{PyRuntime} (e : exception) : string :=
  match e with
  | ValueError msg => msg
  | KeyError msg => py_repr msg
  | RuntimeError msg => msg
  | ValidationError msg => msg
  | Raised text => text
  end.

(** [str(l)] for a list of [str]. *)
Definition str_list `{PyRuntime} (l : list string) : string :=
  "[" +:+ String.concat ", " (map py_repr l) +:+ "]".

(** ** Data model ([models.py]) *)

Inductive NodeType : Type := FUNCTION | CONDITIONAL | START | END.

Inductive RunStatus : Type := PENDING | RUNNING | COMPLETED | FAILED.

Module WorkflowState.
Record t : Type := mk {
  data : loc;
  metadata : gmap string pyvalue
}.
End WorkflowState.

Module NodeDefinition.
Record t : Type := mk {
  name : string;
  node_type : NodeType;
  tool_name : option string;
  config : gmap string pyvalue
}.
End NodeDefinition.

Module EdgeDefinition.
Record t : Type := mk {
  from_node : string;
  to_node : string;
  condition : option string;
  label : option string
}.
End EdgeDefinition.

Module GraphDefinition.
Record t : Type := mk {
  graph_id : string;
  name : string;
  description : option string;
  nodes : list NodeDefinition.t;
  edges : list EdgeDefinition.t;
  entry_point : string;
  created_at : datetime
}.
End GraphDefinition.

(** [execution_time_ms], a float reading of the wall clock, is left out. *)
Module ExecutionLog.
Record t : Type := mk {
  node_name : string;
  timestamp : datetime;
  input_state : loc;
  output_state : loc;
  success : bool;
  error : option string
}.
End ExecutionLog.

Module Run.
Record t : Type := mk {
  run_id : string;
  graph_id : string;
  status : RunStatus;
  current_node : option string;
  current_state : WorkflowState.t;
  execution_logs : list ExecutionLog.t;
  started_at : option datetime;
  completed_at : option datetime;
  error : option string;
  iteration_count : Z;
  max_iterations : Z
}.

Definition set_status (s : RunStatus) (r : t) : t :=
  mk (run_id r) (graph_id r) s (current_node r) (current_state r)
     (execution_logs r) (started_at r) (completed_at r) (error r)
     (iteration_count r) (max_iterations r).

Definition set_current_node (n : option string) (r : t) : t :=
  mk (run_id r) (graph_id r) (status r) n (current_state r)
     (execution_logs r) (started_at r) (completed_at r) (error r)
     (iteration_count r) (max_iterations r).

Definition set_current_state (s : WorkflowState.t) (r : t) : t :=
  mk (run_id r) (graph_id r) (status r) (current_node r) s
     (execution_logs r) (started_at r) (completed_at r) (error r)
     (iteration_count r) (max_iterations r).

Definition set_execution_logs (l : list ExecutionLog.t) (r : t) : t :=
  mk (run_id r) (graph_id r) (status r) (current_node r) (current_state r)
     l (started_at r) (completed_at r) (error r)
     (iteration_count r) (max_iterations r).

Definition set_completed_at (d : option datetime) (r : t) : t :=
  mk (run_id r) (graph_id r) (status r) (current_node r) (current_state r)
     (execution_logs r) (started_at r) d (error r)
     (iteration_count r) (max_iterations r).

Definition set_error (e : option string) (r : t) : t :=
  mk (run_id r) (graph_id r) (status r) (current_node r) (current_state r)
     (execution_logs r) (started_at r) (completed_at r) e
     (iteration_count r) (max_iterations r).

Definition set_iteration_count (n : Z) (r : t) : t :=
  mk (run_id r) (graph_id r) (status r) (current_node r) (current_state r)
     (execution_logs r) (started_at r) (completed_at r) (error r)
     n (max_iterations r).
End Run.

(** ** Tool registry ([tool_registry.py]) *)

Module ToolRegistry.

(** [_tools: Dict[str, Callable]]. [register] stores callables only. *)
Abbreviation t := (gmap string (gmap string pyvalue -> tool_effect)).

Definition exists_ (tools : t) (name : string) : bool :=
  bool_decide (is_Some (tools !! name)).

(** [list(self._tools.keys())]; the map does not keep Python's insertion
    order, which only shows in the text of error messages. *)
Definition list_tools (tools : t) : list string :=
  (map_to_list tools).*1.

Definition register (tools : t) (name : string) (func : pyobject)
    (override : bool) : outcome t :=
  if exists_ tools name && negb override then
    Raise (ValueError ("Tool '" +:+ name +:+ "' already registered. "
                       +:+ "Use override=True to replace it."))
  else
    match func with
    | NotCallable _ =>
        Raise (ValueError ("Tool '" +:+ name +:+ "' must be callable"))
    | Callable f => Return (<[name := f]> tools)
    end.

Definition get `{PyRuntime} (tools : t) (name : string) : outcome tool :=
  match tools !! name with
  | None =>
      Raise (KeyError ("Tool '" +:+ name +:+ "' not found. "
                       +:+ "Available tools: " +:+ str_list (list_tools tools)))
  | Some f => Return f
  end.

Definition unregister (tools : t) (name : string) : outcome t :=
  match tools !! name with
  | None => Raise (KeyError ("Tool '" +:+ name +:+ "' not found"))
  | Some _ => Return (delete name tools)
  end.

Definition clear (tools : t) : t := ∅.

(** The decorator [tool(name)(func)]: [func] is registered under
    [name or func.__name__], without override, and a wrapper that calls
    [func] is returned. [func_name] is [func.__name__]. *)
Definition tool_decorator (tools : t) (name : option string)
    (func_name : string) (func : tool) : outcome (t * tool) :=
  let tool_name := if opt_truthy name then default "" name else func_name in
  match register tools tool_name (Callable func) false with
  | Raise e => Raise e
  | Return tools' => Return (tools', fun state => func state)
  end.

(** The helper [register_tool(name, func)]. *)
Definition register_tool (tools : t) (name : string) (func : pyobject)
    : outcome t :=
  register tools name func false.

End ToolRegistry.


(** ** Graph engine ([graph_engine.py]) *)

Module GraphEngine.
Import WorkflowState NodeDefinition EdgeDefinition.

(** [_build_adjacency_map]: each edge is appended to the list kept under its
    [from_node], so every list is in the order the edges were supplied. *)
Definition _build_adjacency_map (edges : list EdgeDefinition.t)
    : gmap string (list EdgeDefinition.t) :=
  foldl (fun adjacency_map edge =>
           <[from_node edge :=
               default [] (adjacency_map !! from_node edge) ++ [edge]]>
             adjacency_map)
        ∅ edges.

(** [{node.name: node for node in graph.nodes}]: a later node replaces an
    earlier one of the same name. *)
Definition build_node_map (nodes : list NodeDefinition.t)
    : gmap string NodeDefinition.t :=
  foldl (fun node_map node => <[name node := node]> node_map) ∅ nodes.

(** [_evaluate_condition]: the expression is evaluated against the payload
    mapping itself; any exception gives [False]. *)
Definition _evaluate_condition `{PyRuntime} (h : heap) (condition : string)
    (state : loc) : heap * bool :=
  let '(after, r) := py_eval condition (deref h state) in
  (store h state after,
   match r with
   | EvalValue v => truthy v
   | EvalRaises _ => false
   end).

(** [if e.condition] *)
Definition has_condition (e : EdgeDefinition.t) : bool :=
  opt_truthy (condition e).

(** The [for edge in conditional_edges] loop of [_get_next_node]. *)
Fixpoint first_satisfied `{PyRuntime} (h : heap) (state : loc)
    (conditional_edges : list EdgeDefinition.t) : heap * option string :=
  match conditional_edges with
  | [] => (h, None)
  | edge :: rest =>
      let '(h', taken) :=
        _evaluate_condition h (default "" (condition edge)) state in
      if taken then (h', Some (to_node edge))
      else first_satisfied h' state rest
  end.

Definition _get_next_node `{PyRuntime} (h : heap) (current_node_name : string)
    (adjacency_map : gmap string (list EdgeDefinition.t)) (state : loc)
    : heap * option string :=
  let outgoing_edges := default [] (adjacency_map !! current_node_name) in
  match outgoing_edges with
  | [] => (h, None)
  | _ :: _ =>
      let conditional_edges := List.filter has_condition outgoing_edges in
      let unconditional_edges :=
        List.filter (fun e => negb (has_condition e)) outgoing_edges in
      match first_satisfied h state conditional_edges with
      | (h', Some next) => (h', Some next)
      | (h', None) =>
          match unconditional_edges with
          | edge :: _ => (h', Some (to_node edge))
          | [] => (h', None)
          end
      end
  end.

(** [_execute_function_node]: the tool is called on the payload mapping
    itself, which holds whatever the tool wrote to it also when the tool
    raises. *)
Definition _execute_function_node `{PyRuntime} (tool_registry : ToolRegistry.t)
    (h : heap) (node : NodeDefinition.t) (state : loc)
    : heap * outcome pyvalue :=
  if negb (opt_truthy (tool_name node)) then
    (h, Raise (ValueError
                 ("Function node '" +:+ name node +:+ "' has no tool_name")))
  else
    let tn := default "" (tool_name node) in
    match ToolRegistry.get tool_registry tn with
    | Raise (KeyError _) =>
        (h, Raise (ValueError
                     ("Tool '" +:+ tn +:+ "' not found in registry. "
                      +:+ "Available tools: "
                      +:+ str_list (ToolRegistry.list_tools tool_registry))))
    | Raise e => (h, Raise e)
    | Return f =>
        let eff := f (deref h state) in
        (store h state (mutated eff),
         match result eff with
         | Returns v => Return v
         | Raises text => Raise (Raised text)
         end)
    end.

(** [ExecutionLog(..., success=True)]: [output_state] must validate as a
    [Dict[str, Any]]. *)
Definition success_log `{PyRuntime} (h : heap) (node : NodeDefinition.t)
    (input_state : loc) (output_state : pyvalue)
    : heap * outcome ExecutionLog.t :=
  match output_state with
  | PyDict m =>
      let '(h1, i) := dict_field h input_state in
      let '(h2, o) := alloc h1 m in
      (h2, Return (ExecutionLog.mk (name node) utcnow i o true None))
  | _ => (h, Raise (ValidationError (validation_text output_state)))
  end.

(** [ExecutionLog(..., output_state=input_state, success=False, error=str(e))] *)
Definition failure_log `{PyRuntime} (h : heap) (node : NodeDefinition.t)
    (input_state : loc) (e : exception) : heap * ExecutionLog.t :=
  let '(h1, i) := dict_field h input_state in
  let '(h2, o) := dict_field h1 input_state in
  (h2, ExecutionLog.mk (name node) utcnow i o false (Some (str_exc e))).

(** [_execute_node]. [NodeType] has four members, which leaves the final
    [else] of the source (unknown node type) without a case. *)
Definition _execute_node `{PyRuntime} (tool_registry : ToolRegistry.t)
    (h : heap) (node : NodeDefinition.t) (state : WorkflowState.t)
    (iteration : Z) : heap * ExecutionLog.t :=
  let '(h0, input_state) := deepcopy h (data state) in
  let '(h1, body) :=
    match node_type node with
    | FUNCTION => _execute_function_node tool_registry h0 node (data state)
    | CONDITIONAL => (h0, Return (PyDict (deref h0 (data state))))
    | START | END => (h0, Return (PyDict (deref h0 (data state))))
    end in
  let '(h2, built) :=
    match body with
    | Return output_state => success_log h1 node input_state output_state
    | Raise e => (h1, Raise e)
    end in
  match built with
  | Return log => (h2, log)
  | Raise e => failure_log h2 node input_state e
  end.

(** State of the [while] loop of [execute]. *)
Record loop_state : Type := mk_loop {
  ls_heap : heap;
  ls_run : Run.t;
  current_node_name : option string;
  visited_nodes : gset string
}.

(** How one pass through the loop body ends. *)
Inductive control : Type :=
  | Continue (s : loop_state)
  | Break (h : heap) (run : Run.t)
  | Raising (h : heap) (run : Run.t) (e : exception).

Definition cap_message (max_iterations : Z) : string :=
  "Maximum iterations (" +:+ str_of_int max_iterations +:+ ") exceeded. "
  +:+ "Possible infinite loop detected.".

Definition unknown_node_message (node : string) : string :=
  "Node '" +:+ node +:+ "' not found in graph".

(** [run.current_state = WorkflowState(data=execution_log.output_state,
    metadata=run.current_state.metadata)] *)
Definition update_state (h : heap) (run : Run.t) (execution_log : ExecutionLog.t)
    : heap * Run.t :=
  let '(h', d) := dict_field h (ExecutionLog.output_state execution_log) in
  (h', Run.set_current_state
         (WorkflowState.mk d (metadata (Run.current_state run))) run).

(** [if next_node and next_node in visited_nodes: run.iteration_count += 1] *)
Definition count_revisit (visited : gset string) (next_node : option string)
    (run : Run.t) : Run.t :=
  if opt_truthy next_node && bool_decide (default "" next_node ∈ visited)
  then Run.set_iteration_count (Run.iteration_count run + 1) run
  else run.

(** The rest of the loop body once the node has run without failure: state
    update, visited set, successor, loop accounting, and the move. *)
Definition advance `{PyRuntime}
    (adjacency_map : gmap string (list EdgeDefinition.t)) (h : heap)
    (run : Run.t) (current : string) (visited : gset string)
    (execution_log : ExecutionLog.t) : control :=
  let '(h2, run) := update_state h run execution_log in
  let visited := visited ∪ {[current]} in
  let '(h3, next_node) :=
    _get_next_node h2 current adjacency_map (data (Run.current_state run)) in
  let run := count_revisit visited next_node run in
  if negb (opt_truthy next_node) then Break h3 run
  else Continue (mk_loop h3 run next_node visited).

(** The [if not execution_log.success:] branch. *)
Definition fail_run `{PyRuntime} (run : Run.t) (execution_log : ExecutionLog.t)
    : Run.t :=
  Run.set_completed_at (Some utcnow)
    (Run.set_error (ExecutionLog.error execution_log)
       (Run.set_status FAILED run)).

(** The body of [while current_node_name:]. *)
Definition loop_body `{PyRuntime} (tool_registry : ToolRegistry.t)
    (adjacency_map : gmap string (list EdgeDefinition.t))
    (node_map : gmap string NodeDefinition.t) (max_iterations : Z)
    (s : loop_state) : control :=
  let h := ls_heap s in
  let run := ls_run s in
  let current := default "" (current_node_name s) in
  if (Run.iteration_count run >=? max_iterations) then
    Raising h run (RuntimeError (cap_message max_iterations))
  else
    match node_map !! current with
    | None => Raising h run (ValueError (unknown_node_message current))
    | Some current_node =>
        let run := Run.set_current_node (Some current) run in
        let '(h1, execution_log) :=
          _execute_node tool_registry h current_node (Run.current_state run)
                        (Run.iteration_count run) in
        let run :=
          Run.set_execution_logs (Run.execution_logs run ++ [execution_log])
                                 run in
        if negb (ExecutionLog.success execution_log) then
          Break h1 (fail_run run execution_log)
        else
          advance adjacency_map h1 run current (visited_nodes s) execution_log
    end.

(** The [while] loop. It leaves normally (condition false, or [break]) or by
    an exception; [None] only when [fuel] passes were not enough. *)
Fixpoint while_loop `{PyRuntime} (fuel : nat)
    (tool_registry : ToolRegistry.t)
    (adjacency_map : gmap string (list EdgeDefinition.t))
    (node_map : gmap string NodeDefinition.t) (max_iterations : Z)
    (s : loop_state) : option (heap * Run.t * option exception) :=
  if opt_truthy (current_node_name s) then
    match fuel with
    | O => None
    | S fuel' =>
        match loop_body tool_registry adjacency_map node_map max_iterations s
        with
        | Continue s' =>
            while_loop fuel' tool_registry adjacency_map node_map
                       max_iterations s'
        | Break h run => Some (h, run, None)
        | Raising h run e => Some (h, run, Some e)
        end
    end
  else Some (ls_heap s, ls_run s, None).

(** Passes after which the loop has always left: every pass that continues
    either enters a node of the graph for the first time or follows a counted
    re-entry. *)
Definition enough_fuel (graph : GraphDefinition.t) (max_iterations : Z) : nat :=
  (length (GraphDefinition.nodes graph) + Z.to_nat max_iterations + 1)%nat.

(** The [Run] under construction when the [try] block is entered, and the
    store: the caller's [initial_state] and the copy the [WorkflowState]
    holds. *)
Definition initial_loop_state `{PyRuntime} (graph : GraphDefinition.t)
    (initial_state : payload) (max_iterations : Z) : loop_state :=
  let '(h0, caller) := alloc [] initial_state in
  let '(h1, d) := dict_field h0 caller in
  mk_loop h1
    (Run.mk uuid4 (GraphDefinition.graph_id graph) RUNNING
       (Some (GraphDefinition.entry_point graph))
       (WorkflowState.mk d
          {[ "graph_name" := PyStr (GraphDefinition.name graph) ]})
       [] (Some utcnow) None None 0 max_iterations)
    (Some (GraphDefinition.entry_point graph)) ∅.

(** What follows the loop: the statements after it when it left normally, the
    [except Exception] clause otherwise. *)
Definition finish `{PyRuntime} (r : heap * Run.t * option exception)
    : heap * Run.t :=
  match r with
  | (h, run, None) =>
      (h, Run.set_completed_at (Some utcnow) (Run.set_status COMPLETED run))
  | (h, run, Some e) =>
      (h, Run.set_completed_at (Some utcnow)
            (Run.set_error (Some (str_exc e)) (Run.set_status FAILED run)))
  end.

(** [execute]: the returned run and the store it refers to. *)
Definition execute `{PyRuntime} (tool_registry : ToolRegistry.t)
    (graph : GraphDefinition.t) (initial_state : payload)
    (max_iterations : Z) : option (heap * Run.t) :=
  finish <$>
    while_loop (enough_fuel graph max_iterations) tool_registry
      (_build_adjacency_map (GraphDefinition.edges graph))
      (build_node_map (GraphDefinition.nodes graph))
      max_iterations
      (initial_loop_state graph initial_state max_iterations).

End GraphEngine.


(** ** Request surface ([api/routes.py]) *)

Module CreateGraphRequest.
Record t : Type := mk {
  name : string;
  description : option string;
  nodes : list NodeDefinition.t;
  edges : list EdgeDefinition.t;
  entry_point : string
}.
End CreateGraphRequest.

Module Routes.
Import EdgeDefinition.

Inductive HTTPException : Type :=
  | HTTP (status_code : Z) (detail : string).

Definition HTTP_400_BAD_REQUEST : Z := 400.

(** The [for edge in request.edges] loop of [create_graph]: the first edge
    with an endpoint that is no node name ends it, [from_node] looked at
    before [to_node]. *)
Fixpoint check_edges (node_names : gset string) (edges : list EdgeDefinition.t)
    : option HTTPException :=
  match edges with
  | [] => None
  | edge :: rest =>
      if negb (bool_decide (from_node edge ∈ node_names)) then
        Some (HTTP HTTP_400_BAD_REQUEST
                ("Edge from_node '" +:+ from_node edge
                 +:+ "' not found in nodes"))
      else if negb (bool_decide (to_node edge ∈ node_names)) then
        Some (HTTP HTTP_400_BAD_REQUEST
                ("Edge to_node '" +:+ to_node edge
                 +:+ "' not found in nodes"))
      else check_edges node_names rest
  end.

(** [create_graph] up to the call of [storage.save_graph]: the exception
    raised by the checks, or the graph handed to the storage. *)
Definition create_graph `{PyRuntime} (request : CreateGraphRequest.t)
    : HTTPException + GraphDefinition.t :=
  let node_names : gset string :=
    list_to_set (NodeDefinition.name <$> CreateGraphRequest.nodes request) in
  if negb (bool_decide (CreateGraphRequest.entry_point request ∈ node_names))
  then
    inl (HTTP HTTP_400_BAD_REQUEST
           ("Entry point '" +:+ CreateGraphRequest.entry_point request
            +:+ "' not found in nodes"))
  else
    match check_edges node_names (CreateGraphRequest.edges request) with
    | Some e => inl e
    | None =>
        inr (GraphDefinition.mk uuid4
               (CreateGraphRequest.name request)
               (CreateGraphRequest.description request)
               (CreateGraphRequest.nodes request)
               (CreateGraphRequest.edges request)
               (CreateGraphRequest.entry_point request)
               utcnow)
    end.

End Routes.


(** ** The code review workflow ([workflows/code_review.py]) *)

Module CodeReview.

Definition required_tools : list string :=
  ["extract_functions"; "check_complexity"; "detect_issues";
   "suggest_improvements"; "calculate_quality"].

(** The [for tool_name in required_tools] loop of
    [register_code_review_tools]. *)
Fixpoint check_registered (registered tool_names : list string)
    : outcome unit :=
  match tool_names with
  | [] => Return tt
  | tool_name :: rest =>
      if negb (bool_decide (tool_name ∈ registered)) then
        Raise (RuntimeError
                 ("Required tool '" +:+ tool_name +:+ "' not registered!"))
      else check_registered registered rest
  end.

Definition register_code_review_tools (tools : ToolRegistry.t)
    : outcome unit :=
  check_registered (ToolRegistry.list_tools tools) required_tools.

Definition function_node (n tool_name : string) : NodeDefinition.t :=
  NodeDefinition.mk n FUNCTION (Some tool_name) ∅.

Definition create_code_review_graph `{PyRuntime} : GraphDefinition.t :=
  GraphDefinition.mk uuid4 "Code Review Agent"
    (Some "Analyzes Python code and suggests improvements until quality threshold is met")
    [function_node "extract" "extract_functions";
     function_node "complexity" "check_complexity";
     function_node "issues" "detect_issues";
     function_node "suggestions" "suggest_improvements";
     function_node "quality" "calculate_quality"]
    [EdgeDefinition.mk "extract" "complexity" None None;
     EdgeDefinition.mk "complexity" "issues" None None;
     EdgeDefinition.mk "issues" "suggestions" None None;
     EdgeDefinition.mk "suggestions" "quality" None None;
     EdgeDefinition.mk "quality" "suggestions"
       (Some "not state.get('quality_passed', False) and state.get('improvement_iteration', 0) < 5")
       (Some "Continue improving (quality < 8, iteration < 5)")]
    "extract" utcnow.

End CodeReview.


(** ** Notions used to state the properties *)

Module Props.
Import WorkflowState NodeDefinition EdgeDefinition GraphEngine.

(** The loop states an execution passes through at the head of the loop. *)
Inductive reachable `{PyRuntime} (tool_registry : ToolRegistry.t)
    (adjacency_map : gmap string (list EdgeDefinition.t))
    (node_map : gmap string NodeDefinition.t) (max_iterations : Z)
    (init : loop_state) : loop_state -> Prop :=
  | reach_init :
      reachable tool_registry adjacency_map node_map max_iterations init init
  | reach_step s s' :
      reachable tool_registry adjacency_map node_map max_iterations init s ->
      opt_truthy (current_node_name s) = true ->
      loop_body tool_registry adjacency_map node_map max_iterations s
        = Continue s' ->
      reachable tool_registry adjacency_map node_map max_iterations init s'.

(** The conditions of [es], evaluated one after another from store [h], all
    come out falsy and leave store [h']. *)
Inductive all_declined `{PyRuntime} (state : loc)
    : heap -> list EdgeDefinition.t -> heap -> Prop :=
  | declined_nil h : all_declined state h [] h
  | declined_cons h h1 h2 e es :
      _evaluate_condition h (default "" (condition e)) state = (h1, false) ->
      all_declined state h1 es h2 ->
      all_declined state h (e :: es) h2.

(** What bounds the passes still to come: nodes of the graph not yet visited,
    counted re-entries still allowed, and one more when the node about to run
    was visited before. *)
Definition potential (node_map : gmap string NodeDefinition.t)
    (max_iterations : Z) (s : loop_state) : nat :=
  (size (dom node_map ∖ visited_nodes s)
   + Z.to_nat (max_iterations - Run.iteration_count (ls_run s))
   + (if bool_decide (default "" (current_node_name s) ∈ visited_nodes s)
      then 1 else 0))%nat.

(** The store and the run a pass through the loop body leaves. *)
Definition control_heap (c : control) : heap :=
  match c with
  | Continue s => ls_heap s
  | Break h _ => h
  | Raising h _ _ => h
  end.

Definition control_run (c : control) : Run.t :=
  match c with
  | Continue s => ls_run s
  | Break _ run => run
  | Raising _ run _ => run
  end.

(** A log is sound in store [h]: [success] is false exactly when [error] is
    set, and then [output_state] holds what [input_state] holds. *)
Definition log_sound (h : heap) (log : ExecutionLog.t) : Prop :=
  (ExecutionLog.success log = false <-> ExecutionLog.error log ≠ None)
  /\ (ExecutionLog.success log = false ->
        deref h (ExecutionLog.output_state log)
        = deref h (ExecutionLog.input_state log)).

(** The state fields of a log are mappings of store [h] other than the
    payload [d] of the run. *)
Definition log_placed (h : heap) (d : loc) (log : ExecutionLog.t) : Prop :=
  (ExecutionLog.input_state log < length h)%nat
  /\ (ExecutionLog.output_state log < length h)%nat
  /\ ExecutionLog.input_state log ≠ d
  /\ ExecutionLog.output_state log ≠ d.

(** The payload of the run is a mapping of the store, and no log shares a
    mapping with it. *)
Definition store_ok (h : heap) (run : Run.t) : Prop :=
  (data (Run.current_state run) < length h)%nat
  /\ Forall (log_placed h (data (Run.current_state run)))
            (Run.execution_logs run).

End Props.

Module Traces.
Import EdgeDefinition.

(** The graph has an edge from [a] to [b]. *)
Definition edge_between (edges : list EdgeDefinition.t) (a b : string)
    : Prop :=
  exists e, e ∈ edges /\ from_node e = a /\ to_node e = b.

(** Each name of the list is joined to the next by an edge. *)
Fixpoint follows_edges (edges : list EdgeDefinition.t) (names : list string)
    : Prop :=
  match names with
  | a :: (b :: _) as rest => edge_between edges a b /\ follows_edges edges rest
  | _ => True
  end.



End Traces.

(** ** Graphs, tools and runtime of the concrete runs *)

Module Scenario.
Import WorkflowState NodeDefinition EdgeDefinition GraphEngine.

(** Python's [eval] on the constant names of the namespace, and on the
    expression of the nested lookup scenario when the key is missing. No
    other expression occurs in the runs below; they are reported as raising. *)
Definition const_eval (condition : string) (state : payload)
    : payload * eval_result :=
  if String.eqb condition "True" then (state, EvalValue (PyBool true))
  else if String.eqb condition "False" then (state, EvalValue (PyBool false))
  else if String.eqb condition "None" then (state, EvalValue PyNone)
  else if String.eqb condition "state['missing']['deep']" then
    match state !! "missing" with
    | Some (PyDict m) =>
        match m !! "deep" with
        | Some v => (state, EvalValue v)
        | None => (state, EvalRaises "'deep'")
        end
    | Some _ => (state, EvalRaises "object is not subscriptable")
    | None => (state, EvalRaises "'missing'")
    end
  else (state, EvalRaises "not modelled").

#[local] Instance runtime : PyRuntime := {|
  py_eval := const_eval;
  py_repr := fun s => "'" +:+ s +:+ "'";
  utcnow := 0;
  uuid4 := "00000000-0000-4000-8000-000000000000";
  validation_text := fun _ => "Input should be a valid dictionary"
|}.

(** [def identity(state): return state] *)
Definition identity : tool := fun state => mk_effect state (Returns (PyDict state)).

(** [def boom(state): state['x'] = 2; raise RuntimeError('boom')] *)
Definition boom : tool :=
  fun state => mk_effect (<["x" := PyInt 2]> state) (Raises "boom").

Definition function_node (n tool_name : string) : NodeDefinition.t :=
  NodeDefinition.mk n FUNCTION (Some tool_name) ∅.

(** A→B unconditional, B→A on condition [True]. *)
Definition loop_graph : GraphDefinition.t :=
  GraphDefinition.mk "g-loop" "loop" None
    [function_node "A" "identity"; function_node "B" "identity"]
    [EdgeDefinition.mk "A" "B" None None;
     EdgeDefinition.mk "B" "A" (Some "True") None]
    "A" 0.

Definition identity_registry : ToolRegistry.t := {[ "identity" := identity ]}.

(** One FUNCTION node whose tool writes to the payload and raises. *)
Definition boom_graph : GraphDefinition.t :=
  GraphDefinition.mk "g-boom" "boom" None [function_node "A" "boom"] [] "A" 0.

Definition boom_registry : ToolRegistry.t := {[ "boom" := boom ]}.

(** One FUNCTION node with no [tool_name]. *)
Definition untooled_graph : GraphDefinition.t :=
  GraphDefinition.mk "g-untooled" "untooled" None
    [NodeDefinition.mk "A" FUNCTION None ∅] [] "A" 0.

(** A→B guarded by a condition that raises on a payload without [missing]. *)
Definition guarded_graph : GraphDefinition.t :=
  GraphDefinition.mk "g-guarded" "guarded" None
    [function_node "A" "identity"; function_node "B" "identity"]
    [EdgeDefinition.mk "A" "B" (Some "state['missing']['deep']") None]
    "A" 0.

(** Two edges out of A: the unconditional one to C is declared first, the
    one to B carries a condition. *)
Definition branch_edges (condition : string) : list EdgeDefinition.t :=
  [EdgeDefinition.mk "A" "C" None None;
   EdgeDefinition.mk "A" "B" (Some condition) None].

End Scenario.

(** Further inputs: a registry that binds the five tools of the code review
    workflow, nodes and graphs for the edge cases of [execute], and a request
    for [create_graph]. *)
Module Samples.
Import WorkflowState NodeDefinition EdgeDefinition GraphEngine Scenario.

Definition review_registry : ToolRegistry.t :=
  list_to_map ((fun n => (n, identity)) <$> CodeReview.required_tools).

Definition conditional_node : NodeDefinition.t :=
  NodeDefinition.mk "C" CONDITIONAL None ∅.


Definition one_mapping : heap := [ {[ "x" := PyInt 1 ]} ].

(** A graph whose entry point is the empty string. *)
Definition empty_entry_graph : GraphDefinition.t :=
  GraphDefinition.mk "g-empty" "empty" None
    [function_node "A" "identity"] [] "" 0.

(** A graph whose entry point names no node. *)
Definition stray_entry_graph : GraphDefinition.t :=
  GraphDefinition.mk "g-stray" "stray" None
    [function_node "A" "identity"] [] "Z" 0.

(** The request that describes [loop_graph]. *)
Definition loop_request : CreateGraphRequest.t :=
  CreateGraphRequest.mk "loop" None
    [function_node "A" "identity"; function_node "B" "identity"]
    [EdgeDefinition.mk "A" "B" None None;
     EdgeDefinition.mk "B" "A" (Some "True") None]
    "A".

Definition loop_request_graph `{PyRuntime} : GraphDefinition.t :=
  GraphDefinition.mk uuid4 "loop" None
    (CreateGraphRequest.nodes loop_request)
    (CreateGraphRequest.edges loop_request) "A" utcnow.

End Samples.

(** * Properties *)

(** ** The store *)

Lemma append_assoc (a b c : string) : (a +:+ b) +:+ c = a +:+ (b +:+ c).
Proof.
  induction a as [|x a IH]; [done|].
  change (String x ((a +:+ b) +:+ c) = String x (a +:+ (b +:+ c))).
  by rewrite IH.
Qed.

Section Store.
Implicit Types (h : heap) (p : payload).

Lemma deref_alloc_new h p : deref (alloc h p).1 (alloc h p).2 = p.
Proof.
  unfold deref, alloc; simpl.
  by rewrite lookup_app_r, Nat.sub_diag by lia.
Qed.

Lemma deref_app_old h p l : l ≠ length h -> deref (h ++ [p]) l = deref h l.
Proof.
  intros Hne. unfold deref.
  destruct (decide (l < length h)%nat) as [Hlt|Hge].
  - by rewrite lookup_app_l.
  - rewrite (lookup_ge_None_2 h) by lia.
    rewrite lookup_ge_None_2; [done|]. rewrite length_app; simpl. lia.
Qed.

Lemma deref_app_new h p : deref (h ++ [p]) (length h) = p.
Proof. apply (deref_alloc_new h p). Qed.

Lemma deref_store_other h l l' p : l ≠ l' -> deref (store h l p) l' = deref h l'.
Proof. intros Hne. unfold deref, store. by rewrite list_lookup_insert_ne. Qed.

Lemma deref_store_same h l p : (l < length h)%nat -> deref (store h l p) l = p.
Proof. intros Hlt. unfold deref, store. by rewrite list_lookup_insert_eq. Qed.

Lemma length_store h l p : length (store h l p) = length h.
Proof. apply length_insert. Qed.

End Store.

(** ** Tool registry *)

Section Registry.
Context `{PyRuntime}.
Import ToolRegistry.

Lemma exists_spec (tools : ToolRegistry.t) name :
  exists_ tools name = true <-> is_Some (tools !! name).
Proof. unfold exists_. by rewrite bool_decide_eq_true. Qed.

(** C9. [register] raises a [ValueError] when the name is already bound and
    [override] is false, and when the object is not callable; in every other
    case it returns the table with the binding inserted, from which [get]
    returns the callable. [get] of an unbound name raises a [KeyError] whose
    message reads [Tool '<name>' not found...]. *)
Theorem register_get_contract (tools : ToolRegistry.t) (name : string)
    (func : pyobject) (override : bool) :
  (is_Some (tools !! name) -> override = false ->
     exists msg, register tools name func override = Raise (ValueError msg))
  /\ (forall v, func = NotCallable v ->
        exists msg, register tools name func override = Raise (ValueError msg))
  /\ (forall f, func = Callable f -> tools !! name = None \/ override = true ->
        register tools name func override = Return (<[name := f]> tools)
        /\ get (<[name := f]> tools) name = Return f)
  /\ (tools !! name = None ->
        exists rest,
          get tools name
          = Raise (KeyError ("Tool '" +:+ name +:+ "' not found" +:+ rest))).
Proof.
  repeat split.
  - intros Hin ->. unfold register.
    apply exists_spec in Hin. rewrite Hin. simpl. eauto.
  - intros v ->. unfold register.
    destruct (exists_ tools name && negb override); eauto.
  - subst func. unfold register.
    destruct H1 as [Hnone| ->].
    + assert (exists_ tools name = false) as ->; [|done].
      apply not_true_is_false. rewrite exists_spec, Hnone.
      by intros [? ?].
    + by rewrite andb_false_r.
  - subst func. unfold get. by rewrite lookup_insert_eq.
  - intros Hnone. unfold get. rewrite Hnone. eexists. reflexivity.
Qed.

End Registry.

(** ** Execution of one node *)

Section Node.
Context `{PyRuntime}.
Import WorkflowState NodeDefinition EdgeDefinition GraphEngine.

(** The function node leaves every mapping but the payload alone and keeps
    the size of the store. *)
Lemma _execute_function_node_store tool_registry h node state h' r :
  _execute_function_node tool_registry h node state = (h', r) ->
  length h' = length h
  /\ forall l, l ≠ state -> deref h' l = deref h l.
Proof.
  unfold _execute_function_node.
  destruct (negb (opt_truthy (tool_name node))).
  { intros [= <- <-]. done. }
  destruct (ToolRegistry.get _ _) as [f|e].
  - intros [= <- <-]. split; [apply length_store|].
    intros l Hl. by apply deref_store_other.
  - destruct e; intros [= <- <-]; done.
Qed.

(** Shape of the log of a failed node. *)
Lemma failure_log_spec h node input_state e h' log :
  (input_state < length h)%nat ->
  failure_log h node input_state e = (h', log) ->
  h' = h ++ [deref h input_state; deref h input_state]
  /\ ExecutionLog.input_state log = length h
  /\ ExecutionLog.output_state log = S (length h)
  /\ ExecutionLog.success log = false
  /\ ExecutionLog.error log = Some (str_exc e)
  /\ ExecutionLog.node_name log = name node.
Proof.
  intros Hlt. unfold failure_log, dict_field, alloc. simpl.
  rewrite (deref_app_old h _ input_state) by lia.
  intros [= <- <-]. simpl. rewrite length_app, <- app_assoc. simpl.
  repeat split; try done. lia.
Qed.

(** Shape of the log of a node that ran without failure. *)
Lemma success_log_spec h node input_state output h' log :
  success_log h node input_state output = (h', Return log) ->
  exists m, output = PyDict m
  /\ h' = h ++ [deref h input_state; m]
  /\ ExecutionLog.input_state log = length h
  /\ ExecutionLog.output_state log = S (length h)
  /\ ExecutionLog.success log = true
  /\ ExecutionLog.error log = None
  /\ ExecutionLog.node_name log = name node.
Proof.
  unfold success_log, dict_field, alloc.
  destruct output; try discriminate. simpl.
  intros [= <- <-]. exists m. simpl. rewrite length_app, <- app_assoc. simpl.
  repeat split; try done. lia.
Qed.

Lemma success_log_raises h node input_state output h' e :
  success_log h node input_state output = (h', Raise e) -> h' = h.
Proof.
  unfold success_log, dict_field, alloc.
  destruct output; simpl; congruence.
Qed.

(** What [_execute_node] does to the store, whatever the node and the tool:
    two or three mappings are created (the snapshot first, then the fields of
    the log), the payload is the only older mapping that can change, and the
    log's fields are the last two mappings. *)
Lemma _execute_node_store tool_registry h node state iteration h' log :
  (data state < length h)%nat ->
  _execute_node tool_registry h node state iteration = (h', log) ->
  length h' = (length h + 3)%nat
  /\ (forall l, (l < length h)%nat -> l ≠ data state -> deref h' l = deref h l)
  /\ deref h' (length h) = deref h (data state)
  /\ ExecutionLog.input_state log = S (length h)
  /\ ExecutionLog.output_state log = S (S (length h))
  /\ deref h' (ExecutionLog.input_state log) = deref h (data state)
  /\ ExecutionLog.node_name log = name node
  /\ (ExecutionLog.success log = false ->
        is_Some (ExecutionLog.error log)
        /\ deref h' (ExecutionLog.output_state log) = deref h (data state))
  /\ (ExecutionLog.success log = true -> ExecutionLog.error log = None).
Proof.
  intros Hdata. unfold _execute_node, deepcopy, alloc.
  set (h0 := h ++ [deref h (data state)]).
  assert (length h0 = S (length h)) as Hlen0
    by (unfold h0; rewrite length_app; simpl; lia).
  assert (forall l, (l < length h)%nat -> deref h0 l = deref h l) as Hold0
    by (intros l Hl; unfold h0; apply deref_app_old; lia).
  assert (deref h0 (length h) = deref h (data state)) as Hsnap0
    by (unfold h0; apply deref_app_new).
  destruct (match node_type node with
            | FUNCTION => _ | CONDITIONAL => _ | START | END => _ end)
    as [h1 body] eqn:Hbody.
  assert (length h1 = length h0
          /\ forall l, l ≠ data state -> deref h1 l = deref h0 l) as [Hlen1 Hold1].
  { destruct (node_type node).
    - by apply _execute_function_node_store in Hbody.
    - by injection Hbody as <- <-.
    - by injection Hbody as <- <-.
    - by injection Hbody as <- <-. }
  assert (deref h1 (length h) = deref h (data state)) as Hsnap1
    by (rewrite Hold1 by lia; done).
  assert (forall h2 e,
            h2 = h1 ->
            failure_log h2 node (length h) e = (h', log) ->
            length h' = (length h + 3)%nat
            /\ (forall l, (l < length h)%nat -> l ≠ data state ->
                  deref h' l = deref h l)
            /\ deref h' (length h) = deref h (data state)
            /\ ExecutionLog.input_state log = S (length h)
            /\ ExecutionLog.output_state log = S (S (length h))
            /\ deref h' (ExecutionLog.input_state log) = deref h (data state)
            /\ ExecutionLog.node_name log = name node
            /\ (ExecutionLog.success log = false ->
                  is_Some (ExecutionLog.error log)
                  /\ deref h' (ExecutionLog.output_state log)
                     = deref h (data state))
            /\ (ExecutionLog.success log = true ->
                  ExecutionLog.error log = None)) as Hfail.
  { intros h2 e -> Hf.
    apply failure_log_spec in Hf as (-> & Hi & Ho & Hs & He & Hn); [|lia].
    rewrite Hi, Ho, Hs, He, Hlen1, Hlen0, Hsnap1.
    assert (forall l, (l < S (S (length h)))%nat ->
              deref (h1 ++ [deref h (data state); deref h (data state)]) l
              = match decide (l = S (length h)) with
                | left _ => deref h (data state)
                | right _ => deref h1 l
                end) as Hl.
    { intros l Hl. unfold deref. destruct (decide _) as [->|Hne].
      - rewrite lookup_app_r by lia. by rewrite Hlen1, Hlen0, Nat.sub_diag.
      - by rewrite lookup_app_l by lia. }
    repeat split; try done.
    - rewrite length_app; simpl; lia.
    - intros l Hlt Hne. rewrite Hl by lia. destruct (decide _); [lia|].
      rewrite Hold1 by done. by apply Hold0.
    - rewrite Hl by lia. by destruct (decide _); [lia|].
    - rewrite Hl by lia. by destruct (decide _).
    - unfold deref. rewrite lookup_app_r by lia.
      by rewrite Hlen1, Hlen0, Nat.sub_succ_l, Nat.sub_diag by lia. }
  destruct body as [output|e].
  - destruct (success_log h1 node (length h) output) as [h2 built] eqn:Hs.
    destruct built as [log'|e].
    + intros [= <- <-].
      apply success_log_spec in Hs as (m & -> & -> & Hi & Ho & Hsucc & He & Hn).
      rewrite Hi, Ho, Hsucc, He, Hlen1, Hlen0, Hsnap1.
      assert (forall l, (l < S (S (length h)))%nat ->
                deref (h1 ++ [deref h (data state); m]) l
                = match decide (l = S (length h)) with
                  | left _ => deref h (data state)
                  | right _ => deref h1 l
                  end) as Hl.
      { intros l Hl. unfold deref. destruct (decide _) as [->|Hne].
        - rewrite lookup_app_r by lia. by rewrite Hlen1, Hlen0, Nat.sub_diag.
        - by rewrite lookup_app_l by lia. }
      repeat split; try done.
      * rewrite length_app; simpl; lia.
      * intros l Hlt Hne. rewrite Hl by lia. destruct (decide _); [lia|].
        rewrite Hold1 by done. by apply Hold0.
      * rewrite Hl by lia. by destruct (decide _); [lia|].
      * rewrite Hl by lia. by destruct (decide _).
    + apply success_log_raises in Hs as ->. by apply Hfail.
  - by apply Hfail.
Qed.

(** In the log of a node execution, [success] is false exactly when [error]
    is set, and a log with [success] false has an [output_state] equal to its
    [input_state]. *)
Lemma _execute_node_log_sound tool_registry h node state iteration :
  let '(h', log) := _execute_node tool_registry h node state iteration in
  (ExecutionLog.success log = false <-> ExecutionLog.error log ≠ None)
  /\ (ExecutionLog.success log = false ->
        deref h' (ExecutionLog.output_state log)
        = deref h' (ExecutionLog.input_state log)).
Proof.
  unfold _execute_node, deepcopy, alloc.
  set (h0 := h ++ [deref h (data state)]).
  assert (forall h2 e,
            (length h < length h2)%nat ->
            let '(h', log) := failure_log h2 node (length h) e in
            (ExecutionLog.success log = false <-> ExecutionLog.error log ≠ None)
            /\ (ExecutionLog.success log = false ->
                  deref h' (ExecutionLog.output_state log)
                  = deref h' (ExecutionLog.input_state log))) as Hfail.
  { intros h2 e Hlt.
    destruct (failure_log h2 node (length h) e) as [h' log] eqn:Hf.
    apply failure_log_spec in Hf as (-> & Hi & Ho & Hs & He & _); [|done].
    rewrite Hi, Ho, Hs, He. split; [done|]. intros _.
    unfold deref. rewrite !lookup_app_r by lia.
    by rewrite Nat.sub_succ_l, Nat.sub_diag by lia. }
  destruct (match node_type node with
            | FUNCTION => _ | CONDITIONAL => _ | START | END => _ end)
    as [h1 body] eqn:Hbody.
  assert (length h1 = length h0) as Hlen1.
  { destruct (node_type node).
    - by apply _execute_function_node_store in Hbody as [? _].
    - by injection Hbody as <- <-.
    - by injection Hbody as <- <-.
    - by injection Hbody as <- <-. }
  assert (length h < length h1)%nat as Hlt
    by (rewrite Hlen1; unfold h0; rewrite length_app; simpl; lia).
  destruct body as [output|e].
  - destruct (success_log h1 node (length h) output) as [h2 built] eqn:Hs.
    destruct built as [log|e].
    + apply success_log_spec in Hs as (m & _ & _ & _ & _ & Hsucc & He & _).
      rewrite Hsucc, He. split; [split|]; done.
    + apply success_log_raises in Hs as ->. by apply Hfail.
  - by apply Hfail.
Qed.

(** The log's [input_state] is a mapping of its own, distinct from the
    payload the tool is called on, and after the node has run, whatever the
    tool wrote to the payload and whether it returned or raised, it holds
    what the payload held when the node was dispatched. *)
Lemma _execute_node_snapshot tool_registry h node state iteration
    (Hstate : (data state < length h)%nat) :
  let '(h', log) := _execute_node tool_registry h node state iteration in
  ExecutionLog.input_state log ≠ data state
  /\ (length h <= ExecutionLog.input_state log)%nat
  /\ deref h' (ExecutionLog.input_state log) = deref h (data state).
Proof.
  destruct (_execute_node tool_registry h node state iteration)
    as [h' log] eqn:Hrun.
  apply _execute_node_store in Hrun
    as (_ & _ & _ & Hi & _ & Hsnap & _); [|done].
  rewrite Hi in *. repeat split; [lia|lia|done].
Qed.

(** A FUNCTION node that is misconfigured (no [tool_name], or a tool that is
    not registered) or whose tool raises: the log has [success] false and an
    [output_state] that holds what the payload held at dispatch. The payload
    itself is as the tool left it: untouched when the node is misconfigured,
    with the tool's writes when the tool raised. *)
Lemma function_node_failure tool_registry h node state iteration :
  node_type node = FUNCTION ->
  (data state < length h)%nat ->
  let tn := default "" (tool_name node) in
  let '(h', log) := _execute_node tool_registry h node state iteration in
  ((opt_truthy (tool_name node) = false \/ tool_registry !! tn = None) ->
     ExecutionLog.success log = false
     /\ deref h' (ExecutionLog.output_state log) = deref h (data state)
     /\ deref h' (data state) = deref h (data state))
  /\ (forall f text,
        opt_truthy (tool_name node) = true ->
        tool_registry !! tn = Some f ->
        result (f (deref h (data state))) = Raises text ->
        ExecutionLog.success log = false
        /\ ExecutionLog.error log = Some text
        /\ deref h' (ExecutionLog.output_state log) = deref h (data state)
        /\ deref h' (data state) = mutated (f (deref h (data state)))).
Proof.
  intros Htype Hstate tn.
  destruct (_execute_node tool_registry h node state iteration)
    as [h' log] eqn:Hrun.
  pose proof Hrun as Hstore.
  apply _execute_node_store in Hstore
    as (_ & _ & _ & _ & _ & _ & _ & Hfailed & _); [|done].
  unfold _execute_node, deepcopy, alloc in Hrun. rewrite Htype in Hrun.
  unfold _execute_function_node, ToolRegistry.get in Hrun. fold tn in Hrun.
  assert (deref (h ++ [deref h (data state)]) (data state)
          = deref h (data state)) as Hsame by (apply deref_app_old; lia).
  assert (forall h2 e,
            failure_log h2 node (length h) e = (h', log) ->
            (length h < length h2)%nat ->
            ExecutionLog.success log = false
            /\ ExecutionLog.error log = Some (str_exc e)
            /\ deref h' (data state) = deref h2 (data state)) as Hlog.
  { intros h2 e Hf Hlen.
    apply failure_log_spec in Hf as (-> & _ & _ & Hs & He & _); [|done].
    repeat split; try done.
    unfold deref. by rewrite lookup_app_l by lia. }
  split.
  - intros Hmis.
    assert (exists e, failure_log (h ++ [deref h (data state)]) node
                                  (length h) e = (h', log)) as [e Hf].
    { destruct Hmis as [Hno|Hnone].
      - rewrite Hno in Hrun. simpl in Hrun. eauto.
      - destruct (negb (opt_truthy (tool_name node))); simpl in Hrun; [eauto|].
        rewrite Hnone in Hrun. eauto. }
    apply Hlog in Hf as (Hs & _ & Hd); [|rewrite length_app; simpl; lia].
    destruct (Hfailed Hs) as [_ Hout]. by rewrite Hd, Hsame.
  - intros f text Htool Hf Hraise.
    rewrite Htool, Hf in Hrun. simpl in Hrun. rewrite Hsame, Hraise in Hrun.
    apply Hlog in Hrun as (Hs & He & Hd);
      [|rewrite length_store, length_app; simpl; lia].
    destruct (Hfailed Hs) as [_ Hout].
    repeat split; try done.
    rewrite Hd. apply deref_store_same. rewrite length_app; simpl; lia.
Qed.

End Node.

(** ** Successor selection *)

Section Successor.
Context `{PyRuntime}.
Import WorkflowState NodeDefinition EdgeDefinition GraphEngine Props.

Lemma _evaluate_condition_store h condition state h' b :
  _evaluate_condition h condition state = (h', b) ->
  length h' = length h
  /\ forall l, l ≠ state -> deref h' l = deref h l.
Proof.
  unfold _evaluate_condition.
  destruct (py_eval condition (deref h state)) as [after r].
  intros [= <- <-]. split; [apply length_store|].
  intros l Hl. by apply deref_store_other.
Qed.

Lemma first_satisfied_store state es : forall h h' next,
  first_satisfied h state es = (h', next) ->
  length h' = length h
  /\ forall l, l ≠ state -> deref h' l = deref h l.
Proof.
  induction es as [|e es IH]; intros h h' next; simpl.
  - by intros [= <- <-].
  - destruct (_evaluate_condition h _ state) as [h1 taken] eqn:He.
    apply _evaluate_condition_store in He as [Hlen Hold].
    destruct taken.
    + intros [= <- <-]. done.
    + intros Hrest. apply IH in Hrest as [Hlen' Hold'].
      split; [congruence|]. intros l Hl. rewrite Hold' by done. by apply Hold.
Qed.

Lemma _get_next_node_store h current adjacency_map state h' next :
  _get_next_node h current adjacency_map state = (h', next) ->
  length h' = length h
  /\ forall l, l ≠ state -> deref h' l = deref h l.
Proof.
  unfold _get_next_node.
  destruct (default [] (adjacency_map !! current)) as [|e0 out].
  { by intros [= <- <-]. }
  destruct (first_satisfied h state _) as [h1 [n|]] eqn:Hf;
    apply first_satisfied_store in Hf.
  - by intros [= <- <-].
  - destruct (List.filter _ _); by intros [= <- <-].
Qed.

(** The loop over the conditional edges stops at the first one whose
    condition is truthy. *)
Lemma first_satisfied_taken state pre : forall h h1 h2 e post,
  all_declined state h pre h1 ->
  _evaluate_condition h1 (default "" (condition e)) state = (h2, true) ->
  first_satisfied h state (pre ++ e :: post) = (h2, Some (to_node e)).
Proof.
  induction pre as [|e0 pre IH]; intros h h1 h2 e post Hdecl Heval.
  - inversion Hdecl; subst. simpl. by rewrite Heval.
  - inversion Hdecl as [|? h' ? ? ? He0 Hrest]; subst. simpl.
    rewrite He0. by apply (IH h' h1).
Qed.

Lemma first_satisfied_none state es : forall h h1,
  all_declined state h es h1 ->
  first_satisfied h state es = (h1, None).
Proof.
  induction es as [|e es IH]; intros h h1 Hdecl.
  - by inversion Hdecl; subst.
  - inversion Hdecl as [|? h' ? ? ? He Hrest]; subst. simpl.
    rewrite He. by apply IH.
Qed.

(** Every evaluation of the conditional edges ends in one of the two ways. *)
Lemma first_satisfied_cases state es : forall h,
  (exists h1, all_declined state h es h1)
  \/ (exists pre e post h1 h2,
        es = pre ++ e :: post
        /\ all_declined state h pre h1
        /\ _evaluate_condition h1 (default "" (condition e)) state
           = (h2, true)).
Proof.
  induction es as [|e es IH]; intros h.
  - left. exists h. constructor.
  - destruct (_evaluate_condition h (default "" (condition e)) state)
      as [h' taken] eqn:He.
    destruct taken.
    + right. exists [], e, es, h, h'. repeat split; [constructor|done].
    + destruct (IH h') as [[h1 Hd]|(pre & e' & post & h1 & h2 & -> & Hd & Ht)].
      * left. exists h1. by econstructor.
      * right. exists (e :: pre), e', post, h1, h2.
        repeat split; [by econstructor|done].
Qed.

(** C4. Among the outgoing edges of the current node, those with a condition
    are tried in the order supplied, each against the payload as the earlier
    evaluations left it, and the first whose condition is truthy gives the
    successor. When none is truthy the first edge without a condition gives
    it, wherever it stands among the outgoing edges. With no such edge there
    is no successor; the loop body then breaks, and the run is marked
    COMPLETED with the error field as it was. One of the two outcomes of
    the conditional edges (none truthy, or a first truthy one) always
    applies. *)
Theorem successor_selection h current adjacency_map state :
  let outgoing_edges := default [] (adjacency_map !! current) in
  let conditional_edges := List.filter has_condition outgoing_edges in
  let unconditional_edges :=
    List.filter (fun e => negb (has_condition e)) outgoing_edges in
  (forall pre e post h1 h2,
      conditional_edges = pre ++ e :: post ->
      all_declined state h pre h1 ->
      _evaluate_condition h1 (default "" (condition e)) state = (h2, true) ->
      _get_next_node h current adjacency_map state = (h2, Some (to_node e)))
  /\ (forall h1 e rest,
        all_declined state h conditional_edges h1 ->
        unconditional_edges = e :: rest ->
        _get_next_node h current adjacency_map state = (h1, Some (to_node e)))
  /\ (forall h1,
        all_declined state h conditional_edges h1 ->
        unconditional_edges = [] ->
        _get_next_node h current adjacency_map state = (h1, None))
  /\ (forall run visited log,
        let '(h2, run2) := update_state h run log in
        forall h3,
        _get_next_node h2 current adjacency_map
                       (data (Run.current_state run2)) = (h3, None) ->
        advance adjacency_map h run current visited log = Break h3 run2
        /\ Run.status (finish (h3, run2, None)).2 = COMPLETED
        /\ Run.error (finish (h3, run2, None)).2 = Run.error run)
  /\ ((exists h1, all_declined state h conditional_edges h1)
      \/ (exists pre e post h1 h2,
            conditional_edges = pre ++ e :: post
            /\ all_declined state h pre h1
            /\ _evaluate_condition h1 (default "" (condition e)) state
               = (h2, true))).
Proof.
  intros outgoing_edges conditional_edges unconditional_edges.
  split; [|split; [|split; [|split; [|apply first_satisfied_cases]]]].
  - intros pre e post h1 h2 Hsplit Hdecl Heval.
    unfold _get_next_node. fold outgoing_edges.
    destruct outgoing_edges as [|e0 out] eqn:Hout.
    { by destruct pre. }
    fold conditional_edges. rewrite Hsplit.
    by rewrite (first_satisfied_taken state pre h h1 h2 e post).
  - intros h1 e rest Hdecl Hun.
    unfold _get_next_node. fold outgoing_edges.
    destruct outgoing_edges as [|e0 out] eqn:Hout; [done|].
    fold conditional_edges unconditional_edges.
    by rewrite (first_satisfied_none state _ h h1), Hun.
  - intros h1 Hdecl Hun.
    unfold _get_next_node. fold outgoing_edges.
    destruct outgoing_edges as [|e0 out] eqn:Hout.
    { by inversion Hdecl; subst. }
    fold conditional_edges unconditional_edges.
    by rewrite (first_satisfied_none state _ h h1), Hun.
  - intros run visited log.
    destruct (update_state h run log) as [h2 run2] eqn:Hup.
    intros h3 Hnext. unfold advance. rewrite Hup, Hnext. simpl.
    split; [done|]. split; [done|].
    unfold update_state, dict_field, alloc in Hup.
    by injection Hup as <- <-.
Qed.

End Successor.

(** ** The loop of [execute] *)

Section Loop.
Context `{PyRuntime}.
Import WorkflowState NodeDefinition EdgeDefinition GraphEngine Props.

Variable tool_registry : ToolRegistry.t.
Variable adjacency_map : gmap string (list EdgeDefinition.t).
Variable node_map : gmap string NodeDefinition.t.
Variable max_iterations : Z.

#[local] Abbreviation body := (loop_body tool_registry adjacency_map node_map
                                  max_iterations).
#[local] Abbreviation loop fuel := (while_loop fuel tool_registry adjacency_map
                                        node_map max_iterations).

(** The three ways through the loop body. *)
Lemma loop_body_cases s :
  let run := ls_run s in
  let current := default "" (current_node_name s) in
  (max_iterations <= Run.iteration_count run
   /\ body s = Raising (ls_heap s) run (RuntimeError (cap_message max_iterations)))
  \/ (Run.iteration_count run < max_iterations
      /\ node_map !! current = None
      /\ body s = Raising (ls_heap s) run
                    (ValueError (unknown_node_message current)))
  \/ (exists node h1 log,
        Run.iteration_count run < max_iterations
        /\ node_map !! current = Some node
        /\ _execute_node tool_registry (ls_heap s) node (Run.current_state run)
                         (Run.iteration_count run) = (h1, log)
        /\ let run1 :=
             Run.set_execution_logs (Run.execution_logs run ++ [log])
               (Run.set_current_node (Some current) run) in
           (ExecutionLog.success log = false
            /\ body s = Break h1 (fail_run run1 log))
           \/ (ExecutionLog.success log = true
               /\ body s = advance adjacency_map h1 run1 current
                             (visited_nodes s) log)).
Proof.
  intros run current. unfold loop_body. fold run current.
  destruct (Z.geb_spec (Run.iteration_count run) max_iterations) as [Hge|Hlt].
  { left. split; [lia|done]. }
  right. destruct (node_map !! current) as [node|] eqn:Hnode.
  2:{ left. done. }
  right. simpl.
  destruct (_execute_node tool_registry (ls_heap s) node
              (Run.current_state run) (Run.iteration_count run))
    as [h1 log] eqn:Hexec.
  exists node, h1, log. repeat split; try done.
  destruct (ExecutionLog.success log); [right|left]; done.
Qed.

(** The two ways out of [advance]. *)
Lemma advance_cases h run current visited log :
  let '(h2, run2) := update_state h run log in
  let visited' := visited ∪ {[current]} in
  exists h3 next_node,
    _get_next_node h2 current adjacency_map (data (Run.current_state run2))
    = (h3, next_node)
    /\ let run3 := count_revisit visited' next_node run2 in
       (opt_truthy next_node = false
        /\ advance adjacency_map h run current visited log = Break h3 run3)
       \/ (opt_truthy next_node = true
           /\ advance adjacency_map h run current visited log
              = Continue (mk_loop h3 run3 next_node visited')).
Proof.
  unfold advance. destruct (update_state h run log) as [h2 run2].
  destruct (_get_next_node h2 current adjacency_map
              (data (Run.current_state run2))) as [h3 next_node].
  exists h3, next_node. split; [done|].
  destruct (opt_truthy next_node); [right|left]; done.
Qed.

(** Hoare-style rule for the loop: an invariant of the passes that continue,
    and a postcondition established at each way out. *)
Lemma while_loop_rule (I : loop_state -> Prop)
    (Q : heap * Run.t * option exception -> Prop) :
  (forall s s', I s -> opt_truthy (current_node_name s) = true ->
                body s = Continue s' -> I s') ->
  (forall s, I s -> opt_truthy (current_node_name s) = false ->
             Q (ls_heap s, ls_run s, None)) ->
  (forall s h run, I s -> opt_truthy (current_node_name s) = true ->
                   body s = Break h run -> Q (h, run, None)) ->
  (forall s h run e, I s -> opt_truthy (current_node_name s) = true ->
                     body s = Raising h run e -> Q (h, run, Some e)) ->
  forall fuel s r, I s -> loop fuel s = Some r -> Q r.
Proof.
  intros Hcont Hfalse Hbreak Hraise.
  induction fuel as [|fuel IH]; intros s r HI; simpl;
    destruct (opt_truthy (current_node_name s)) eqn:Htruthy;
    try discriminate.
  - intros [= <-]. by apply Hfalse.
  - destruct (body s) as [s'|h run|h run e] eqn:Hbody.
    + apply IH. by apply (Hcont s).
    + intros [= <-]. by apply (Hbreak s).
    + intros [= <-]. by apply (Hraise s).
  - intros [= <-]. by apply Hfalse.
Qed.

(** Unfolding of the loop by the way the body ends. *)
Lemma while_loop_continue fuel s s' :
  opt_truthy (current_node_name s) = true ->
  body s = Continue s' ->
  loop (S fuel) s = loop fuel s'.
Proof. intros Ht Hb. simpl. by rewrite Ht, Hb. Qed.

Lemma while_loop_raising fuel s h run e :
  opt_truthy (current_node_name s) = true ->
  body s = Raising h run e ->
  loop (S fuel) s = Some (h, run, Some e).
Proof. intros Ht Hb. simpl. by rewrite Ht, Hb. Qed.

(** The loop states passed through are the reachable ones. *)
Lemma reachable_invariant (I : loop_state -> Prop) init :
  I init ->
  (forall s s', I s -> opt_truthy (current_node_name s) = true ->
                body s = Continue s' -> I s') ->
  forall s,
    reachable tool_registry adjacency_map node_map max_iterations init s ->
    I s.
Proof.
  intros Hinit Hstep s Hreach. induction Hreach; [done|].
  by apply (Hstep s).
Qed.

(** From a state the execution passes through, the loop ends as it ends
    from the initial state. *)
Lemma loop_from_reachable init s :
  reachable tool_registry adjacency_map node_map max_iterations init s ->
  forall fuel r, loop fuel init = Some r -> exists fuel', loop fuel' s = Some r.
Proof.
  induction 1 as [|s s' Hreach IH Htruthy Hbody]; intros fuel r Hloop.
  - by exists fuel.
  - destruct (IH fuel r Hloop) as [fuel' Hs].
    destruct fuel' as [|fuel']; simpl in Hs; rewrite Htruthy in Hs;
      [discriminate|].
    rewrite Hbody in Hs. by exists fuel'.
Qed.

(** What a pass that continues has done. *)
Lemma continue_spec s s' :
  body s = Continue s' ->
  let current := default "" (current_node_name s) in
  Run.iteration_count (ls_run s) < max_iterations
  /\ is_Some (node_map !! current)
  /\ visited_nodes s' = visited_nodes s ∪ {[current]}
  /\ opt_truthy (current_node_name s') = true
  /\ Run.iteration_count (ls_run s')
     = Run.iteration_count (ls_run s)
       + (if bool_decide (default "" (current_node_name s') ∈ visited_nodes s')
          then 1 else 0)
  /\ Run.max_iterations (ls_run s') = Run.max_iterations (ls_run s)
  /\ Run.error (ls_run s') = Run.error (ls_run s)
  /\ Run.status (ls_run s') = Run.status (ls_run s)
  /\ Run.completed_at (ls_run s') = Run.completed_at (ls_run s)
  /\ metadata (Run.current_state (ls_run s'))
     = metadata (Run.current_state (ls_run s))
  /\ exists log,
       Run.execution_logs (ls_run s') = Run.execution_logs (ls_run s) ++ [log]
       /\ ExecutionLog.success log = true.
Proof.
  intros Hbody current.
  destruct (loop_body_cases s) as [[_ Hb]|[(_ & _ & Hb)|Hb]];
    [congruence|congruence|].
  destruct Hb as (node & h1 & log & Hlt & Hnode & Hexec & Hb).
  fold current in Hnode, Hb.
  destruct Hb as [[_ Hb]|[Hsucc Hb]]; [congruence|].
  rewrite Hbody in Hb. symmetry in Hb.
  pose proof (advance_cases h1
    (Run.set_execution_logs (Run.execution_logs (ls_run s) ++ [log])
       (Run.set_current_node (Some current) (ls_run s)))
    current (visited_nodes s) log) as Hadv.
  unfold update_state, dict_field, alloc in Hadv.
  destruct Hadv as (h3 & next_node & _ & [[_ Hadv]|[Htruthy Hadv]]);
    rewrite Hb in Hadv; [discriminate|].
  injection Hadv as ->. simpl.
  unfold count_revisit. rewrite Htruthy. simpl.
  split; [done|]. split; [by rewrite Hnode|]. split; [done|]. split; [done|].
  split.
  { destruct (bool_decide _); simpl; lia. }
  repeat split; try (by destruct (bool_decide _)).
  exists log. split; [by destruct (bool_decide _)|done].
Qed.

(** What a pass that ends in [break] has done: the node failed and the run
    carries its error, or the node succeeded and has no successor. *)
Lemma break_spec s h run :
  body s = Break h run ->
  Run.iteration_count run = Run.iteration_count (ls_run s)
  /\ Run.iteration_count (ls_run s) < max_iterations
  /\ Run.max_iterations run = Run.max_iterations (ls_run s)
  /\ metadata (Run.current_state run)
     = metadata (Run.current_state (ls_run s))
  /\ exists log,
       Run.execution_logs run = Run.execution_logs (ls_run s) ++ [log]
       /\ ((ExecutionLog.success log = false
            /\ Run.error run = ExecutionLog.error log
            /\ Run.status run = FAILED
            /\ Run.completed_at run = Some utcnow
            /\ Run.current_state run = Run.current_state (ls_run s))
           \/ (ExecutionLog.success log = true
               /\ Run.error run = Run.error (ls_run s)
               /\ Run.status run = Run.status (ls_run s)
               /\ Run.completed_at run = Run.completed_at (ls_run s))).
Proof.
  intros Hbody.
  destruct (loop_body_cases s) as [[_ Hb]|[(_ & _ & Hb)|Hb]];
    [congruence|congruence|].
  destruct Hb as (node & h1 & log & Hlt & Hnode & Hexec & Hb).
  destruct Hb as [[Hfail Hb]|[Hsucc Hb]]; rewrite Hbody in Hb.
  - injection Hb as -> ->. simpl. repeat split; try done.
    exists log. split; [done|]. left. done.
  - symmetry in Hb.
    pose proof (advance_cases h1
      (Run.set_execution_logs (Run.execution_logs (ls_run s) ++ [log])
         (Run.set_current_node (Some (default "" (current_node_name s)))
            (ls_run s)))
      (default "" (current_node_name s)) (visited_nodes s) log) as Hadv.
    unfold update_state, dict_field, alloc in Hadv.
    destruct Hadv as (h3 & next_node & _ & [[Hfalsy Hadv]|[_ Hadv]]);
      rewrite Hb in Hadv; [|discriminate].
    injection Hadv as -> ->. unfold count_revisit. rewrite Hfalsy. simpl.
    repeat split; try done.
    exists log. split; [done|]. right. done.
Qed.

(** What a pass that ends in an exception has done: nothing; the cap was
    reached or the node is not in the graph. *)
Lemma raising_spec s h run e :
  body s = Raising h run e ->
  h = ls_heap s /\ run = ls_run s
  /\ ((max_iterations <= Run.iteration_count (ls_run s)
       /\ e = RuntimeError (cap_message max_iterations))
      \/ (Run.iteration_count (ls_run s) < max_iterations
          /\ e = ValueError
                   (unknown_node_message
                      (default "" (current_node_name s))))).
Proof.
  intros Hbody.
  destruct (loop_body_cases s) as [[Hge Hb]|[(Hlt & _ & Hb)|Hb]].
  - rewrite Hbody in Hb. injection Hb as -> -> ->. eauto.
  - rewrite Hbody in Hb. injection Hb as -> -> ->. eauto 6.
  - destruct Hb as (node & h1 & log & Hlt & Hnode & Hexec & Hb).
    destruct Hb as [[_ Hb]|[_ Hb]]; rewrite Hbody in Hb; [discriminate|].
    symmetry in Hb.
    pose proof (advance_cases h1
      (Run.set_execution_logs (Run.execution_logs (ls_run s) ++ [log])
         (Run.set_current_node (Some (default "" (current_node_name s)))
            (ls_run s)))
      (default "" (current_node_name s)) (visited_nodes s) log) as Hadv.
    unfold update_state, dict_field, alloc in Hadv.
    destruct Hadv as (h3 & next_node & _ & [[_ Hadv]|[_ Hadv]]);
      rewrite Hb in Hadv; discriminate.
Qed.

End Loop.

(** ** The store along the loop *)

Section Frame.
Context `{PyRuntime}.
Import WorkflowState NodeDefinition EdgeDefinition GraphEngine Props.

Variable tool_registry : ToolRegistry.t.
Variable adjacency_map : gmap string (list EdgeDefinition.t).
Variable node_map : gmap string NodeDefinition.t.
Variable max_iterations : Z.

#[local] Abbreviation body := (loop_body tool_registry adjacency_map node_map
                                         max_iterations).

(** One pass through the loop body: the store only grows, the mappings other
    than the payload keep their content, and the log the pass appends, if
    any, is sound, is apart from the payload, and holds as [input_state] what
    the payload held when the pass began. *)
Lemma body_frame s :
  (data (Run.current_state (ls_run s)) < length (ls_heap s))%nat ->
  let h := ls_heap s in
  let d := data (Run.current_state (ls_run s)) in
  let h' := control_heap (body s) in
  let run' := control_run (body s) in
  let d' := data (Run.current_state run') in
  (length h <= length h')%nat
  /\ (d' < length h')%nat
  /\ (d' = d \/ (length h <= d')%nat)
  /\ (forall l, (l < length h)%nat -> l ≠ d -> deref h' l = deref h l)
  /\ ((Run.execution_logs run' = Run.execution_logs (ls_run s)
       /\ h' = h
       /\ (max_iterations <= Run.iteration_count (ls_run s)
           \/ node_map !! default "" (current_node_name s) = None))
      \/ (exists node log,
            node_map !! default "" (current_node_name s) = Some node
            /\ Run.iteration_count (ls_run s) < max_iterations
            /\ Run.execution_logs run'
               = Run.execution_logs (ls_run s) ++ [log]
            /\ ExecutionLog.node_name log = name node
            /\ log_sound h' log
            /\ log_placed h' d' log
            /\ (length h <= ExecutionLog.input_state log)%nat
            /\ (length h <= ExecutionLog.output_state log)%nat
            /\ deref h' (ExecutionLog.input_state log) = deref h d)).
Proof.
  intros Hd h d h' run' d'. subst h d h' run' d'.
  destruct (loop_body_cases tool_registry adjacency_map node_map
              max_iterations s) as [[Hge Hb]|[(_ & Hnone & Hb)|Hb]].
  - rewrite Hb. simpl.
    repeat split; try done; eauto.
  - rewrite Hb. simpl.
    repeat split; try done; eauto.
  - destruct Hb as (node & h1 & log & Hlt & Hnode & Hexec & Hb).
    apply _execute_node_store in Hexec
      as (Hlen1 & Hold1 & _ & Hi & Ho & Hsnap & Hname & Hfailed & Hsucceeded);
      [|done].
    assert (log_sound h1 log) as Hsound1.
    { split.
      - split.
        + intros Hf. destruct (Hfailed Hf) as [[x Hx] _]. by rewrite Hx.
        + intros He. destruct (ExecutionLog.success log) eqn:Hs; [|done].
          by rewrite (Hsucceeded eq_refl) in He.
      - intros Hf. destruct (Hfailed Hf) as [_ Hout]. by rewrite Hout, Hsnap. }
    destruct Hb as [[Hfail Hb]|[Hsucc Hb]].
    + rewrite Hb. simpl.
      split; [lia|]. split; [lia|]. split; [by left|]. split; [done|].
      right. exists node, log.
      repeat split; try done; try (apply Hsound1); try lia.
    + pose proof (advance_cases adjacency_map h1
        (Run.set_execution_logs (Run.execution_logs (ls_run s) ++ [log])
           (Run.set_current_node (Some (default "" (current_node_name s)))
              (ls_run s)))
        (default "" (current_node_name s)) (visited_nodes s) log) as Hadv.
      unfold update_state, dict_field, alloc in Hadv. simpl in Hadv.
      destruct Hadv as (h3 & next_node & Hnext & Hadv).
      apply _get_next_node_store in Hnext as [Hlen3 Hold3].
      rewrite length_app in Hlen3. simpl in Hlen3.
      assert (forall l, (l < length h1)%nat -> deref h3 l = deref h1 l) as Hkeep.
      { intros l Hl. rewrite Hold3 by lia. apply deref_app_old. lia. }
      assert (control_heap (body s) = h3
              /\ Run.execution_logs (control_run (body s))
                 = Run.execution_logs (ls_run s) ++ [log]
              /\ data (Run.current_state (control_run (body s))) = length h1)
        as (Hh' & Hlogs' & Hd').
      { rewrite Hb.
        destruct Hadv as [[Hfalsy ->]|[Htruthy ->]]; simpl;
          unfold count_revisit; rewrite ?Hfalsy, ?Htruthy; simpl;
          [done | by destruct (bool_decide _)]. }
      rewrite Hh', Hlogs', Hd'.
      split; [lia|]. split; [lia|]. split; [right; lia|].
      split.
      { intros l Hl Hne. rewrite Hkeep by lia. by apply Hold1. }
      right. exists node, log.
      split; [done|]. split; [done|]. split; [done|]. split; [done|].
      split.
      { destruct Hsound1 as [Hiff Hout]. split; [done|].
        intros Hf. rewrite !Hkeep by lia. by apply Hout. }
      split; [unfold log_placed; lia|].
      split; [lia|]. split; [lia|].
      rewrite Hkeep by lia. done.
Qed.

(** The placement of the logs and the soundness of each are kept by a pass
    that changes the store as [body_frame] says. *)
Lemma placed_sound_frame (h h' : heap) (d d' : loc) logs :
  (d < length h)%nat ->
  (length h <= length h')%nat ->
  (d' = d \/ (length h <= d')%nat) ->
  (forall l, (l < length h)%nat -> l ≠ d -> deref h' l = deref h l) ->
  Forall (log_placed h d) logs ->
  Forall (log_sound h) logs ->
  Forall (log_placed h' d') logs /\ Forall (log_sound h') logs.
Proof.
  intros Hd Hlen Hd' Hold Hplaced Hsound.
  induction logs as [|log logs IH]; [done|].
  inversion Hplaced as [|? ? (Hi & Ho & Hid & Hod) Hrest]; subst.
  inversion Hsound as [|? ? [Hiff Hout] Hrest']; subst.
  destruct (IH Hrest Hrest') as [IHp IHs].
  split; constructor; try done.
  - unfold log_placed. destruct Hd' as [->|Hge]; lia.
  - split; [done|]. intros Hf. rewrite !Hold by done. by apply Hout.
Qed.

End Frame.

(** ** Soundness of the logs along the loop *)

Section Logs.
Context `{PyRuntime}.
Import WorkflowState NodeDefinition EdgeDefinition GraphEngine Props.

Variable tool_registry : ToolRegistry.t.
Variable adjacency_map : gmap string (list EdgeDefinition.t).
Variable node_map : gmap string NodeDefinition.t.
Variable max_iterations : Z.

#[local] Abbreviation body := (loop_body tool_registry adjacency_map node_map
                                         max_iterations).
#[local] Abbreviation loop fuel := (while_loop fuel tool_registry adjacency_map
                                               node_map max_iterations).

(** A pass keeps the logs apart from the payload, keeps them sound, keeps
    what their [input_state] holds, and only appends to them. *)
Lemma body_store_ok s :
  store_ok (ls_heap s) (ls_run s) ->
  Forall (log_sound (ls_heap s)) (Run.execution_logs (ls_run s)) ->
  let h' := control_heap (body s) in
  let run' := control_run (body s) in
  store_ok h' run'
  /\ Forall (log_sound h') (Run.execution_logs run')
  /\ (forall log, log ∈ Run.execution_logs (ls_run s) ->
        deref h' (ExecutionLog.input_state log)
        = deref (ls_heap s) (ExecutionLog.input_state log))
  /\ Run.execution_logs (ls_run s) `prefix_of` Run.execution_logs run'.
Proof.
  intros [Hd Hplaced] Hsound h' run'.
  destruct (body_frame tool_registry adjacency_map node_map max_iterations
              s Hd) as (Hlen & Hd' & Hdd & Hold & Hlogs).
  fold h' run' in Hlen, Hd', Hdd, Hold, Hlogs.
  destruct (placed_sound_frame (ls_heap s) h' _ _ _ Hd Hlen Hdd Hold
              Hplaced Hsound) as [Hplaced' Hsound'].
  assert (forall log, log ∈ Run.execution_logs (ls_run s) ->
            deref h' (ExecutionLog.input_state log)
            = deref (ls_heap s) (ExecutionLog.input_state log)) as Hkeep.
  { intros log Hin.
    rewrite Forall_forall in Hplaced.
    destruct (Hplaced log Hin) as (Hi & _ & Hne & _). by apply Hold. }
  destruct Hlogs as [(Heq & _)|(node & log & _ & _ & Heq & _ & Hs & Hp & _)].
  - unfold store_ok. rewrite Heq. done.
  - unfold store_ok. rewrite Heq. repeat split; try done.
    + apply Forall_app. split; [done|]. by constructor.
    + apply Forall_app. split; [done|]. by constructor.
    + by apply prefix_app_r.
Qed.

(** The same from any loop state to the way the loop leaves. *)
Lemma loop_store_ok fuel s0 r :
  store_ok (ls_heap s0) (ls_run s0) ->
  Forall (log_sound (ls_heap s0)) (Run.execution_logs (ls_run s0)) ->
  loop fuel s0 = Some r ->
  store_ok r.1.1 r.1.2
  /\ Forall (log_sound r.1.1) (Run.execution_logs r.1.2)
  /\ (forall log, log ∈ Run.execution_logs (ls_run s0) ->
        deref r.1.1 (ExecutionLog.input_state log)
        = deref (ls_heap s0) (ExecutionLog.input_state log))
  /\ Run.execution_logs (ls_run s0) `prefix_of` Run.execution_logs r.1.2.
Proof.
  intros Hok Hsound Hloop.
  set (J := fun (h : heap) (run : Run.t) =>
              store_ok h run
              /\ Forall (log_sound h) (Run.execution_logs run)
              /\ (forall log, log ∈ Run.execution_logs (ls_run s0) ->
                    deref h (ExecutionLog.input_state log)
                    = deref (ls_heap s0) (ExecutionLog.input_state log))
              /\ Run.execution_logs (ls_run s0)
                 `prefix_of` Run.execution_logs run).
  assert (forall s, J (ls_heap s) (ls_run s) ->
            J (control_heap (body s)) (control_run (body s))) as Hstep.
  { intros s (Hok' & Hsound' & Hkeep & Hpre).
    destruct (body_store_ok s Hok' Hsound') as (Hok2 & Hsound2 & Hkeep2 & Hpre2).
    repeat split; try done; try apply Hok2.
    - intros log Hin. rewrite Hkeep2; [by apply Hkeep|].
      destruct Hpre as [k ->]. set_solver.
    - by etransitivity. }
  refine (while_loop_rule tool_registry adjacency_map node_map max_iterations
            (fun s => J (ls_heap s) (ls_run s))
            (fun r => J r.1.1 r.1.2) _ _ _ _ fuel s0 r _ Hloop).
  - intros s s' HJ _ Hb. specialize (Hstep s HJ). by rewrite Hb in Hstep.
  - by intros s HJ _.
  - intros s h run HJ _ Hb. specialize (Hstep s HJ). by rewrite Hb in Hstep.
  - intros s h run e HJ _ Hb. specialize (Hstep s HJ). by rewrite Hb in Hstep.
  - repeat split; try done; apply Hok.
Qed.

End Logs.

(** ** Termination *)

Section Termination.
Context `{PyRuntime}.
Import WorkflowState NodeDefinition EdgeDefinition GraphEngine Props.

Variable tool_registry : ToolRegistry.t.
Variable adjacency_map : gmap string (list EdgeDefinition.t).
Variable node_map : gmap string NodeDefinition.t.
Variable max_iterations : Z.

#[local] Abbreviation body := (loop_body tool_registry adjacency_map node_map
                                         max_iterations).
#[local] Abbreviation loop fuel := (while_loop fuel tool_registry adjacency_map
                                               node_map max_iterations).

(** Every pass that continues lowers the potential. *)
Lemma potential_decreases s s' :
  body s = Continue s' ->
  (potential node_map max_iterations s'
   < potential node_map max_iterations s)%nat.
Proof.
  intros Hbody.
  apply continue_spec in Hbody
    as (Hlt & Hnode & Hvisited & _ & Hcount & _).
  unfold potential. rewrite Hcount, Hvisited.
  set (c := default "" (current_node_name s)) in *.
  set (V := visited_nodes s) in *.
  set (k := Run.iteration_count (ls_run s)) in *.
  assert (Z.to_nat
            (max_iterations
             - (k + (if bool_decide
                          (default "" (current_node_name s') ∈ V ∪ {[c]})
                     then 1 else 0)))
          + (if bool_decide (default "" (current_node_name s') ∈ V ∪ {[c]})
             then 1 else 0)
          = Z.to_nat (max_iterations - k))%nat as Hk.
  { rewrite <- Hvisited. destruct (bool_decide _); lia. }
  destruct (decide (c ∈ V)) as [Hin|Hout].
  - assert (V ∪ {[c]} = V) as -> by (clear -Hin; set_solver).
    rewrite (bool_decide_eq_true_2 (c ∈ V)) by done.
    rewrite <- Hvisited in Hk.
    assert (V ∪ {[c]} = V) as HV by (clear -Hin; set_solver).
    rewrite Hvisited, HV in Hk. lia.
  - rewrite (bool_decide_eq_false_2 (c ∈ V)) by done.
    assert (size (dom node_map ∖ (V ∪ {[c]})) < size (dom node_map ∖ V))%nat.
    { apply subset_size. apply elem_of_dom in Hnode.
      clear -Hnode Hout. set_solver. }
    lia.
Qed.

(** With fuel above the potential the loop leaves. *)
Lemma while_loop_terminates fuel : forall s,
  (potential node_map max_iterations s < fuel)%nat ->
  is_Some (loop fuel s).
Proof.
  induction fuel as [|fuel IH]; intros s Hfuel; [lia|].
  simpl. destruct (opt_truthy (current_node_name s)); [|done].
  destruct (body s) as [s'|h run|h run e] eqn:Hbody; [|done|done].
  apply IH. apply potential_decreases in Hbody. lia.
Qed.

End Termination.

Section NodeMap.
Import NodeDefinition GraphEngine.

Lemma size_build_node_map_aux nodes : forall (m : gmap string NodeDefinition.t),
  (size (dom (foldl (fun node_map node => <[name node := node]> node_map)
                    m nodes))
   <= size (dom m) + length nodes)%nat.
Proof.
  induction nodes as [|n nodes IH]; intros m; simpl; [lia|].
  etransitivity; [apply IH|].
  rewrite dom_insert_L.
  assert (size ({[name n]} ∪ dom m) <= size (dom m) + 1)%nat; [|lia].
  rewrite size_union_alt.
  assert (size (dom m ∖ {[name n]}) <= size (dom m))%nat
    by (apply subseteq_size; clear; set_solver).
  rewrite size_singleton. lia.
Qed.

Lemma size_build_node_map nodes :
  (size (dom (build_node_map nodes)) <= length nodes)%nat.
Proof.
  unfold build_node_map.
  etransitivity; [apply size_build_node_map_aux|].
  rewrite dom_empty_L, size_empty. lia.
Qed.

End NodeMap.

(** ** Executions *)

Section Execute.
Context `{PyRuntime}.
Import WorkflowState NodeDefinition EdgeDefinition GraphEngine Props.

Variable tool_registry : ToolRegistry.t.
Variable graph : GraphDefinition.t.
Variable initial_state : payload.
Variable max_iterations : Z.

#[local] Abbreviation adjacency_map :=
  (_build_adjacency_map (GraphDefinition.edges graph)).
#[local] Abbreviation node_map :=
  (build_node_map (GraphDefinition.nodes graph)).
#[local] Abbreviation body :=
  (loop_body tool_registry adjacency_map node_map max_iterations).
#[local] Abbreviation init :=
  (initial_loop_state graph initial_state max_iterations).
#[local] Abbreviation passes :=
  (reachable tool_registry adjacency_map node_map max_iterations init).

Lemma potential_init :
  (potential node_map max_iterations init
   < enough_fuel graph max_iterations)%nat.
Proof.
  unfold potential, enough_fuel, initial_loop_state, dict_field, alloc.
  simpl.
  rewrite bool_decide_eq_false_2 by set_solver.
  rewrite difference_empty_L.
  pose proof (size_build_node_map (GraphDefinition.nodes graph)).
  rewrite Z.sub_0_r. lia.
Qed.

(** [execute] returns: the loop leaves within the fuel it is given. *)
Lemma execute_returns :
  exists r,
    while_loop (enough_fuel graph max_iterations) tool_registry adjacency_map
               node_map max_iterations init = Some r
    /\ execute tool_registry graph initial_state max_iterations
       = Some (finish r).
Proof.
  destruct (while_loop_terminates tool_registry adjacency_map node_map
              max_iterations (enough_fuel graph max_iterations) init
              potential_init) as [r Hr].
  exists r. split; [done|]. unfold execute. by rewrite Hr.
Qed.

(** Proof rule for [execute]: an invariant [I] of the loop states passed
    through, and a property [Q] of the way the loop leaves. *)
Lemma execute_rule (I : loop_state -> Prop)
    (Q : heap * Run.t * option exception -> Prop) :
  I init ->
  (forall s s', passes s -> I s -> opt_truthy (current_node_name s) = true ->
                body s = Continue s' -> I s') ->
  (forall s, passes s -> I s -> opt_truthy (current_node_name s) = false ->
             Q (ls_heap s, ls_run s, None)) ->
  (forall s h run, passes s -> I s ->
                   opt_truthy (current_node_name s) = true ->
                   body s = Break h run -> Q (h, run, None)) ->
  (forall s h run e, passes s -> I s ->
                     opt_truthy (current_node_name s) = true ->
                     body s = Raising h run e -> Q (h, run, Some e)) ->
  exists r,
    execute tool_registry graph initial_state max_iterations
    = Some (finish r)
    /\ Q r.
Proof.
  intros Hinit Hcont Hfalse Hbreak Hraise.
  destruct execute_returns as (r & Hloop & Hexec).
  exists r. split; [done|].
  apply (while_loop_rule tool_registry adjacency_map node_map max_iterations
           (fun s => passes s /\ I s) Q) with
    (fuel := enough_fuel graph max_iterations) (s := init); try done.
  - intros s s' [Hp HI] Ht Hb. split; [by eapply reach_step|].
    by apply (Hcont s).
  - intros s [Hp HI] Ht. by apply Hfalse.
  - intros s h run [Hp HI] Ht Hb. by apply (Hbreak s).
  - intros s h run e [Hp HI] Ht Hb. by apply (Hraise s).
  - split; [constructor|done].
Qed.

(** From any loop state passed through, the loop leaves the way the whole
    execution does. *)
Lemma execute_from s :
  passes s ->
  exists r fuel,
    while_loop fuel tool_registry adjacency_map node_map max_iterations s
    = Some r
    /\ execute tool_registry graph initial_state max_iterations
       = Some (finish r).
Proof.
  intros Hp. destruct execute_returns as (r & Hloop & Hexec).
  destruct (loop_from_reachable tool_registry adjacency_map node_map
              max_iterations init s Hp _ r Hloop) as [fuel Hs].
  by exists r, fuel.
Qed.

End Execute.

(** ** Properties of every execution *)

Section Runs.
Context `{PyRuntime}.
Import WorkflowState NodeDefinition EdgeDefinition GraphEngine Props.

Variable tool_registry : ToolRegistry.t.
Variable graph : GraphDefinition.t.
Variable initial_state : payload.
Variable max_iterations : Z.

#[local] Abbreviation adjacency_map :=
  (_build_adjacency_map (GraphDefinition.edges graph)).
#[local] Abbreviation node_map :=
  (build_node_map (GraphDefinition.nodes graph)).
#[local] Abbreviation body :=
  (loop_body tool_registry adjacency_map node_map max_iterations).
#[local] Abbreviation init :=
  (initial_loop_state graph initial_state max_iterations).
#[local] Abbreviation passes :=
  (reachable tool_registry adjacency_map node_map max_iterations init).
#[local] Abbreviation graph_metadata :=
  ({[ "graph_name" := PyStr (GraphDefinition.name graph) ]}
     : gmap string pyvalue).

Lemma init_store_ok :
  store_ok (ls_heap init) (ls_run init)
  /\ Forall (log_sound (ls_heap init)) (Run.execution_logs (ls_run init)).
Proof.
  unfold initial_loop_state, dict_field, alloc, store_ok. simpl.
  repeat split; try done. lia.
Qed.

(** The logs of every loop state passed through are sound and apart from
    the payload. *)
Lemma passes_store_ok s :
  passes s ->
  store_ok (ls_heap s) (ls_run s)
  /\ Forall (log_sound (ls_heap s)) (Run.execution_logs (ls_run s)).
Proof.
  apply (reachable_invariant tool_registry adjacency_map node_map
           max_iterations
           (fun s => store_ok (ls_heap s) (ls_run s)
                     /\ Forall (log_sound (ls_heap s))
                               (Run.execution_logs (ls_run s)))).
  - apply init_store_ok.
  - intros s0 s' [Hok Hsound] _ Hb.
    destruct (body_store_ok tool_registry adjacency_map node_map
                max_iterations s0 Hok Hsound) as (Hok' & Hsound' & _).
    rewrite Hb in Hok', Hsound'. done.
Qed.

(** The run of every loop state passed through is RUNNING with no error, no
    completion time, the metadata and the cap it was constructed with, and
    successful logs only. *)
Lemma passes_run s :
  passes s ->
  Run.status (ls_run s) = RUNNING
  /\ Run.error (ls_run s) = None
  /\ Run.completed_at (ls_run s) = None
  /\ Run.max_iterations (ls_run s) = max_iterations
  /\ metadata (Run.current_state (ls_run s)) = graph_metadata
  /\ Forall (fun log => ExecutionLog.success log = true)
            (Run.execution_logs (ls_run s)).
Proof.
  apply (reachable_invariant tool_registry adjacency_map node_map
           max_iterations
           (fun s => Run.status (ls_run s) = RUNNING
                     /\ Run.error (ls_run s) = None
                     /\ Run.completed_at (ls_run s) = None
                     /\ Run.max_iterations (ls_run s) = max_iterations
                     /\ metadata (Run.current_state (ls_run s))
                        = graph_metadata
                     /\ Forall (fun log => ExecutionLog.success log = true)
                               (Run.execution_logs (ls_run s)))).
  - unfold initial_loop_state, dict_field, alloc. simpl. done.
  - intros s0 s' (Hst & Herr & Hca & Hmax & Hmeta & Hlogs) _ Hb.
    apply continue_spec in Hb
      as (_ & _ & _ & _ & _ & Hmax' & Herr' & Hst' & Hca' & Hmeta' & log
          & Hlogs' & Hsucc).
    rewrite Hmax', Herr', Hst', Hca', Hmeta', Hlogs'.
    repeat split; try done.
    apply Forall_app. split; [done|]. by constructor.
Qed.

(** The counter of every loop state passed through is between 0 and the
    cap, when the cap is not negative. *)
Lemma passes_count s :
  0 <= max_iterations ->
  passes s ->
  0 <= Run.iteration_count (ls_run s) <= max_iterations.
Proof.
  intros Hmax.
  apply (reachable_invariant tool_registry adjacency_map node_map
           max_iterations
           (fun s => 0 <= Run.iteration_count (ls_run s) <= max_iterations)).
  - unfold initial_loop_state, dict_field, alloc. simpl. lia.
  - intros s0 s' Hcount _ Hb.
    apply continue_spec in Hb as (Hlt & _ & _ & _ & Hcount' & _).
    rewrite Hcount'. destruct (bool_decide _); lia.
Qed.

(** How every execution ends: [execute] returns a run with a completion
    time, and the run is
    - COMPLETED with no error and successful logs only, or
    - COMPLETED with the error of its last log, the only failing one, or
    - FAILED with successful logs only and the error of the iteration cap or
      of a node missing from the graph. *)
Lemma execute_outcome :
  exists h run,
    execute tool_registry graph initial_state max_iterations = Some (h, run)
    /\ is_Some (Run.completed_at run)
    /\ Run.max_iterations run = max_iterations
    /\ ((Run.status run = COMPLETED /\ Run.error run = None
         /\ Forall (fun log => ExecutionLog.success log = true)
                   (Run.execution_logs run))
        \/ (Run.status run = COMPLETED
            /\ exists pre log,
                 Run.execution_logs run = pre ++ [log]
                 /\ Forall (fun log => ExecutionLog.success log = true) pre
                 /\ ExecutionLog.success log = false
                 /\ Run.error run = ExecutionLog.error log)
        \/ (Run.status run = FAILED
            /\ Forall (fun log => ExecutionLog.success log = true)
                      (Run.execution_logs run)
            /\ (Run.error run = Some (cap_message max_iterations)
                \/ exists n, Run.error run = Some (unknown_node_message n)))).
Proof.
  destruct (execute_rule tool_registry graph initial_state max_iterations
    (fun _ => True)
    (fun r =>
       Run.max_iterations r.1.2 = max_iterations
       /\ match r.2 with
          | None =>
              (Run.error r.1.2 = None
               /\ Forall (fun log => ExecutionLog.success log = true)
                         (Run.execution_logs r.1.2))
              \/ (exists pre log,
                    Run.execution_logs r.1.2 = pre ++ [log]
                    /\ Forall (fun log => ExecutionLog.success log = true) pre
                    /\ ExecutionLog.success log = false
                    /\ Run.error r.1.2 = ExecutionLog.error log)
          | Some e =>
              Forall (fun log => ExecutionLog.success log = true)
                     (Run.execution_logs r.1.2)
              /\ (e = RuntimeError (cap_message max_iterations)
                  \/ exists n, e = ValueError (unknown_node_message n))
          end)) as (r & Hexec & Hmax & Hr).
  - done.
  - done.
  - intros s Hp _ _. simpl.
    destruct (passes_run s Hp) as (_ & Herr & _ & Hmax & _ & Hlogs).
    split; [done|]. by left.
  - intros s h run Hp _ _ Hb. simpl.
    destruct (passes_run s Hp) as (_ & Herr & _ & Hmax & _ & Hlogs).
    apply break_spec in Hb as (_ & _ & Hmax' & _ & log & Hlogs' & Hcase).
    split; [congruence|].
    destruct Hcase as [(Hf & He & _)|(Hs & He & _)].
    + right. by exists (Run.execution_logs (ls_run s)), log.
    + left. split; [congruence|]. rewrite Hlogs'.
      apply Forall_app. split; [done|]. by constructor.
  - intros s h run e Hp _ _ Hb. simpl.
    destruct (passes_run s Hp) as (_ & Herr & _ & Hmax & _ & Hlogs).
    apply raising_spec in Hb as (-> & -> & Hcase).
    split; [done|]. split; [done|].
    destruct Hcase as [[_ ->]|[_ ->]]; eauto.
  - destruct r as [[h run] exc]. simpl in *.
    destruct exc as [e|]; simpl in Hexec.
    + eexists _, _. split; [exact Hexec|]. simpl.
      split; [done|]. split; [done|]. right. right.
      destruct Hr as [Hlogs He]. split; [done|]. split; [done|].
      destruct He as [->|[n ->]]; simpl; eauto.
    + eexists _, _. split; [exact Hexec|]. simpl.
      split; [done|]. split; [done|].
      destruct Hr as [[Herr Hlogs]|Hlast]; [by left|by right; left].
Qed.

(** C7. Evaluating a condition never raises: when [eval] raises, the result
    is [False] and the loop over the conditional edges moves on to the next
    edge. Nothing of it reaches the run: the error of a returned run is null
    (and the run is then COMPLETED, all its logs successful), or it is the
    error of a failed node's log, of the iteration cap, or of a node missing
    from the graph. *)
Theorem condition_failure_not_surfaced :
  (forall h condition state after text,
      py_eval condition (deref h state) = (after, EvalRaises text) ->
      _evaluate_condition h condition state = (store h state after, false))
  /\ (forall h state edge rest after text,
        py_eval (default "" (condition edge)) (deref h state)
        = (after, EvalRaises text) ->
        first_satisfied h state (edge :: rest)
        = first_satisfied (store h state after) state rest)
  /\ exists h run,
       execute tool_registry graph initial_state max_iterations
       = Some (h, run)
       /\ ((Run.error run = None /\ Run.status run = COMPLETED
            /\ Forall (fun log => ExecutionLog.success log = true)
                      (Run.execution_logs run))
           \/ (exists log,
                 log ∈ Run.execution_logs run
                 /\ ExecutionLog.success log = false
                 /\ Run.error run = ExecutionLog.error log)
           \/ Run.error run = Some (cap_message max_iterations)
           \/ (exists n, Run.error run = Some (unknown_node_message n))).
Proof.
  split; [|split].
  - intros h condition state after text Heval.
    unfold _evaluate_condition. by rewrite Heval.
  - intros h state edge rest after text Heval. simpl.
    unfold _evaluate_condition. by rewrite Heval.
  - destruct execute_outcome as (h & run & Hexec & _ & _ & Hcase).
    exists h, run. split; [done|].
    destruct Hcase as [(Hst & Herr & Hlogs)|[(Hst & pre & log & Hl & _ & Hf & He)
                                            |(Hst & _ & [Hcap|Hnode])]].
    + by left.
    + right. left. exists log. rewrite Hl. set_solver.
    + right. right. by left.
    + right. right. by right.
Qed.

(** C8. The run is constructed with the metadata [{graph_name: graph.name}];
    the state update after a node keeps the metadata, gives [data] the
    content of the log's [output_state] and changes no other field of the
    run; every loop state passed through and the returned run have the
    metadata the run was constructed with. *)
Theorem metadata_preserved :
  metadata (Run.current_state (ls_run init)) = graph_metadata
  /\ (forall h run log,
        let '(h', run') := update_state h run log in
        metadata (Run.current_state run') = metadata (Run.current_state run)
        /\ deref h' (data (Run.current_state run'))
           = deref h (ExecutionLog.output_state log)
        /\ Run.set_current_state (Run.current_state run) run' = run)
  /\ (forall s, passes s ->
        metadata (Run.current_state (ls_run s)) = graph_metadata)
  /\ exists h run,
       execute tool_registry graph initial_state max_iterations
       = Some (h, run)
       /\ metadata (Run.current_state run) = graph_metadata.
Proof.
  split; [|split; [|split]].
  - unfold initial_loop_state, dict_field, alloc. done.
  - intros h run log. unfold update_state, dict_field, alloc. simpl.
    split; [done|]. split; [apply deref_app_new|]. by destruct run.
  - intros s Hp. by destruct (passes_run s Hp) as (_ & _ & _ & _ & Hm & _).
  - destruct (execute_rule tool_registry graph initial_state max_iterations
      (fun _ => True)
      (fun r => metadata (Run.current_state r.1.2) = graph_metadata))
      as (r & Hexec & Hr).
    + done.
    + done.
    + intros s Hp _ _. simpl.
      by destruct (passes_run s Hp) as (_ & _ & _ & _ & Hm & _).
    + intros s h run Hp _ _ Hb. simpl.
      destruct (passes_run s Hp) as (_ & _ & _ & _ & Hm & _).
      apply break_spec in Hb as (_ & _ & _ & Hm' & _). congruence.
    + intros s h run e Hp _ _ Hb. simpl.
      destruct (passes_run s Hp) as (_ & _ & _ & _ & Hm & _).
      by apply raising_spec in Hb as (_ & -> & _).
    + destruct r as [[h run] [e|]]; simpl in *;
        eexists _, _; (split; [exact Hexec|done]).
Qed.

Lemma finish_heap r : (finish r).1 = r.1.1.
Proof. by destruct r as [[h run] [e|]]. Qed.

Lemma finish_logs r :
  Run.execution_logs (finish r).2 = Run.execution_logs r.1.2.
Proof. by destruct r as [[h run] [e|]]. Qed.

(** C6. The log of every node execution has [success] false exactly when
    [error] is set, and then an [output_state] equal to its [input_state];
    and so has, in the store [execute] returns, every log of the returned
    run. *)
Theorem log_error_iff_failure :
  (forall h node state iteration,
      let '(h', log) := _execute_node tool_registry h node state iteration in
      log_sound h' log)
  /\ exists h run,
       execute tool_registry graph initial_state max_iterations
       = Some (h, run)
       /\ Forall (fun log =>
                    (ExecutionLog.success log = false
                     <-> ExecutionLog.error log ≠ None)
                    /\ (ExecutionLog.success log = false ->
                          deref h (ExecutionLog.output_state log)
                          = deref h (ExecutionLog.input_state log)))
                 (Run.execution_logs run).
Proof.
  split.
  - intros h node state iteration.
    apply (_execute_node_log_sound tool_registry h node state iteration).
  - destruct (execute_returns tool_registry graph initial_state
                max_iterations) as (r & Hloop & Hexec).
    destruct init_store_ok as [Hok Hsound].
    destruct (loop_store_ok tool_registry adjacency_map node_map
                max_iterations _ init r Hok Hsound Hloop)
      as (_ & Hsound' & _).
    exists (finish r).1, (finish r).2.
    split; [by rewrite Hexec; destruct (finish r)|].
    by rewrite finish_heap, finish_logs.
Qed.

(** C10. The [input_state] of the log of a node execution is a mapping of
    its own, not the payload the tool is called on, and after the node has
    run, whatever the tool wrote to the payload and whether it returned or
    raised, it holds what the payload held when the node was dispatched.
    Along an execution: for the node dispatched from any loop state passed
    through, the log it appends is in the returned run, at the position the
    logs had reached, and its [input_state] holds in the returned store
    what the payload held at the dispatch. *)
Theorem input_state_is_snapshot :
  (forall h node state iteration,
      (data state < length h)%nat ->
      let '(h', log) := _execute_node tool_registry h node state iteration in
      ExecutionLog.input_state log ≠ data state
      /\ deref h' (ExecutionLog.input_state log) = deref h (data state))
  /\ (forall s node,
        passes s ->
        opt_truthy (current_node_name s) = true ->
        Run.iteration_count (ls_run s) < max_iterations ->
        node_map !! default "" (current_node_name s) = Some node ->
        exists h run log,
          execute tool_registry graph initial_state max_iterations
          = Some (h, run)
          /\ Run.execution_logs run
               !! length (Run.execution_logs (ls_run s)) = Some log
          /\ ExecutionLog.node_name log = name node
          /\ deref h (ExecutionLog.input_state log)
             = deref (ls_heap s) (data (Run.current_state (ls_run s)))).
Proof.
  split.
  - intros h node state iteration Hstate.
    pose proof (_execute_node_snapshot tool_registry h node state iteration
                  Hstate) as Hsnap.
    destruct (_execute_node tool_registry h node state iteration)
      as [h' log].
    by destruct Hsnap as (Hne & _ & Hc).
  - intros s node Hp Htruthy Hlt Hnode.
    destruct (passes_store_ok s Hp) as [Hok Hsound].
    destruct (execute_from tool_registry graph initial_state max_iterations
                s Hp) as (r & fuel & Hloop & Hexec).
    destruct fuel as [|fuel]; simpl in Hloop; rewrite Htruthy in Hloop;
      [discriminate|].
    destruct (body_frame tool_registry adjacency_map node_map max_iterations
                s (proj1 Hok)) as (_ & _ & _ & _ & Hlogs).
    destruct Hlogs as [(_ & _ & [Hge|Hnone])|Hlog]; [lia|congruence|].
    destruct Hlog as (node' & log & Hnode' & _ & Heq & Hname & _ & _ & _ & _
                      & Hsnap).
    assert (node' = node) as -> by congruence.
    destruct (body_store_ok tool_registry adjacency_map node_map
                max_iterations s Hok Hsound) as (Hok' & Hsound' & _).
    assert (Run.execution_logs r.1.2
              !! length (Run.execution_logs (ls_run s)) = Some log
            /\ deref r.1.1 (ExecutionLog.input_state log)
               = deref (ls_heap s) (data (Run.current_state (ls_run s))))
      as [Hat Hcontent].
    { destruct (body s) as [s'|h run|h run e] eqn:Hb; simpl in *.
      - destruct (loop_store_ok tool_registry adjacency_map node_map
                    max_iterations fuel s' r Hok' Hsound' Hloop)
          as (_ & _ & Hkeep & [k Hpre]).
        split.
        + rewrite Hpre, Heq, <- app_assoc.
          by rewrite lookup_app_r, Nat.sub_diag.
        + rewrite Hkeep; [done|]. rewrite Heq. set_solver.
      - injection Hloop as <-. simpl. split; [|done].
        by rewrite Heq, lookup_app_r, Nat.sub_diag.
      - injection Hloop as <-. simpl. split; [|done].
        by rewrite Heq, lookup_app_r, Nat.sub_diag. }
    exists (finish r).1, (finish r).2, log.
    split; [by rewrite Hexec; destruct (finish r)|].
    by rewrite finish_heap, finish_logs.
Qed.

(** The message of the iteration cap ends with the warning of a possible
    infinite loop. *)
Lemma cap_message_mentions :
  exists prefix,
    cap_message max_iterations
    = prefix +:+ "Possible infinite loop detected.".
Proof.
  exists ("Maximum iterations (" +:+ str_of_int max_iterations
          +:+ ") exceeded. ").
  unfold cap_message. by rewrite !append_assoc.
Qed.

(** C3, for a cap that is not negative. When the counter equals the cap at
    the head of the loop, no other node is executed: [execute] returns the
    store and the run of that moment, the run FAILED with the message of the
    cap, which mentions a possible infinite loop. The counter is between 0
    and the cap in every loop state passed through and in the returned run.
    A pass that moves on to a next node adds the current node to the visited
    set and adds one to the counter exactly when the next node is in that
    set; a pass that ends the loop leaves the counter as it was. *)
Theorem iteration_cap (Hcap : 0 <= max_iterations) :
  (forall s,
      passes s ->
      opt_truthy (current_node_name s) = true ->
      Run.iteration_count (ls_run s) = max_iterations ->
      execute tool_registry graph initial_state max_iterations
      = Some (ls_heap s,
              Run.set_completed_at (Some utcnow)
                (Run.set_error (Some (cap_message max_iterations))
                   (Run.set_status FAILED (ls_run s)))))
  /\ (exists prefix,
        cap_message max_iterations
        = prefix +:+ "Possible infinite loop detected.")
  /\ (forall s, passes s ->
        0 <= Run.iteration_count (ls_run s) <= max_iterations)
  /\ (exists h run,
        execute tool_registry graph initial_state max_iterations
        = Some (h, run)
        /\ 0 <= Run.iteration_count run <= Run.max_iterations run
        /\ Run.max_iterations run = max_iterations)
  /\ (forall s s',
        body s = Continue s' ->
        visited_nodes s'
        = visited_nodes s ∪ {[default "" (current_node_name s)]}
        /\ Run.iteration_count (ls_run s')
           = Run.iteration_count (ls_run s)
             + (if bool_decide (default "" (current_node_name s')
                                ∈ visited_nodes s')
                then 1 else 0))
  /\ (forall s h run,
        body s = Break h run ->
        Run.iteration_count run = Run.iteration_count (ls_run s)).
Proof.
  split; [|split; [|split; [|split; [|split]]]].
  - intros s Hp Htruthy Hcount.
    destruct (execute_from tool_registry graph initial_state max_iterations
                s Hp) as (r & fuel & Hloop & Hexec).
    destruct fuel as [|fuel]; simpl in Hloop; rewrite Htruthy in Hloop;
      [discriminate|].
    destruct (loop_body_cases tool_registry adjacency_map node_map
                max_iterations s) as [[_ Hb]|[(Hlt & _)|Hb]].
    + rewrite Hb in Hloop. injection Hloop as <-. by rewrite Hexec.
    + lia.
    + destruct Hb as (? & ? & ? & Hlt & _). lia.
  - apply cap_message_mentions.
  - intros s Hp. by apply passes_count.
  - destruct (execute_rule tool_registry graph initial_state max_iterations
      (fun _ => True)
      (fun r => 0 <= Run.iteration_count r.1.2 <= max_iterations
                /\ Run.max_iterations r.1.2 = max_iterations))
      as (r & Hexec & Hr).
    + done.
    + done.
    + intros s Hp _ _. simpl. split; [by apply passes_count|].
      by destruct (passes_run s Hp) as (_ & _ & _ & Hm & _).
    + intros s h run Hp _ _ Hb. simpl.
      destruct (passes_run s Hp) as (_ & _ & _ & Hm & _).
      pose proof (passes_count s Hcap Hp).
      apply break_spec in Hb as (Hc & _ & Hm' & _).
      split; [lia|congruence].
    + intros s h run e Hp _ _ Hb. simpl.
      destruct (passes_run s Hp) as (_ & _ & _ & Hm & _).
      pose proof (passes_count s Hcap Hp).
      by apply raising_spec in Hb as (_ & -> & _).
    + exists (finish r).1, (finish r).2.
      split; [by rewrite Hexec; destruct (finish r)|].
      destruct r as [[h run] [e|]]; simpl in *; lia.
  - intros s s' Hb.
    by apply continue_spec in Hb as (_ & _ & Hv & _ & Hc & _).
  - intros s h run Hb. by apply break_spec in Hb as (Hc & _).
Qed.

End Runs.

(** ** The loop scenario: A→B, B→A on condition [True], cap 3 *)

Section LoopScenario.
Context `{PyRuntime}.
Import WorkflowState NodeDefinition EdgeDefinition GraphEngine Props Scenario.

(** Python evaluates the expression [True] to [True] and leaves the payload
    alone. *)
Hypothesis eval_True :
  forall state, py_eval "True" state = (state, EvalValue (PyBool true)).

Variable initial_state : payload.

#[local] Abbreviation adjacency_map :=
  (_build_adjacency_map (GraphDefinition.edges loop_graph)).
#[local] Abbreviation node_map :=
  (build_node_map (GraphDefinition.nodes loop_graph)).
#[local] Abbreviation body :=
  (loop_body identity_registry adjacency_map node_map 3).
#[local] Abbreviation loop fuel :=
  (while_loop fuel identity_registry adjacency_map node_map 3).

(** A node bound to the identity tool runs without failure. *)
Lemma identity_node_succeeds h n state iteration :
  let '(_, log) :=
    _execute_node identity_registry h (function_node n "identity") state
                  iteration in
  ExecutionLog.success log = true /\ ExecutionLog.node_name log = n.
Proof.
  unfold _execute_node, deepcopy, alloc, _execute_function_node. simpl.
  unfold ToolRegistry.get, identity_registry.
  rewrite lookup_singleton_eq. simpl.
  unfold dict_field, alloc. simpl. done.
Qed.

Lemma next_of_A h d : _get_next_node h "A" adjacency_map d = (h, Some "B").
Proof.
  unfold _get_next_node.
  replace (adjacency_map !! "A")
    with (Some [EdgeDefinition.mk "A" "B" None None])
    by (vm_compute; reflexivity).
  reflexivity.
Qed.

Lemma next_of_B h d :
  _get_next_node h "B" adjacency_map d = (store h d (deref h d), Some "A").
Proof.
  unfold _get_next_node.
  replace (adjacency_map !! "B")
    with (Some [EdgeDefinition.mk "B" "A" (Some "True") None])
    by (vm_compute; reflexivity).
  simpl. unfold _evaluate_condition. simpl. by rewrite eval_True.
Qed.

(** A pass from a node of the graph below the cap: the node is logged as
    successful and the loop moves on to the successor. *)
Lemma identity_pass s c next :
  current_node_name s = Some c ->
  Run.iteration_count (ls_run s) < 3 ->
  node_map !! c = Some (function_node c "identity") ->
  (forall h d, exists h', _get_next_node h c adjacency_map d = (h', Some next)) ->
  str_truthy next = true ->
  exists s',
    body s = Continue s'
    /\ current_node_name s' = Some next
    /\ visited_nodes s' = visited_nodes s ∪ {[c]}
    /\ Run.iteration_count (ls_run s')
       = Run.iteration_count (ls_run s)
         + (if bool_decide (next ∈ visited_nodes s ∪ {[c]}) then 1 else 0)
    /\ ExecutionLog.node_name <$> Run.execution_logs (ls_run s')
       = (ExecutionLog.node_name <$> Run.execution_logs (ls_run s)) ++ [c].
Proof.
  intros Hcur Hlt Hnode Hnext Htruthy.
  destruct (loop_body_cases identity_registry adjacency_map node_map 3 s)
    as [[Hge _]|[(_ & Hnone & _)|Hb]].
  { lia. }
  { rewrite Hcur in Hnone. change (default "" (Some c)) with c in Hnone.
    congruence. }
  destruct Hb as (node & h1 & log & _ & Hnode' & Hexec & Hb).
  rewrite Hcur in Hnode', Hb.
  change (default "" (Some c)) with c in Hnode', Hb.
  assert (node = function_node c "identity") as -> by congruence.
  pose proof (identity_node_succeeds (ls_heap s) c
                (Run.current_state (ls_run s))
                (Run.iteration_count (ls_run s))) as Hid.
  rewrite Hexec in Hid. destruct Hid as [Hsucc Hname].
  destruct Hb as [[Hfail _]|[_ Hb]]; [congruence|].
  pose proof (advance_cases adjacency_map h1
    (Run.set_execution_logs (Run.execution_logs (ls_run s) ++ [log])
       (Run.set_current_node (Some c) (ls_run s)))
    c (visited_nodes s) log) as Hadv.
  unfold update_state, dict_field, alloc in Hadv.
  destruct Hadv as (h3 & next_node & Hn & Hcase).
  match type of Hn with
  | _get_next_node ?a _ _ ?d = _ => destruct (Hnext a d) as [h' Hn']
  end.
  rewrite Hn' in Hn. injection Hn as <- <-.
  destruct Hcase as [[Hfalsy _]|[_ Hadv]].
  { simpl in Hfalsy. congruence. }
  rewrite Hb, Hadv. eexists. split; [reflexivity|]. simpl.
  split; [done|]. split; [done|].
  unfold count_revisit. simpl. rewrite Htruthy. simpl.
  destruct (bool_decide (next ∈ visited_nodes s ∪ {[c]})); simpl.
  - split; [done|]. rewrite fmap_app. simpl. by rewrite Hname.
  - split; [lia|]. rewrite fmap_app. simpl. by rewrite Hname.
Qed.

(** C2, as the code has it. Whatever the initial state, the run of the
    graph A→B, B→A (condition [True]) with identity tools and cap 3 is
    FAILED with the message of the cap and a counter of 3, after four node
    executions, A, B, A, B: the re-entry into B is counted like the
    re-entries into A. *)
Theorem loop_cap_four_logs :
  exists h run,
    execute identity_registry loop_graph initial_state 3 = Some (h, run)
    /\ Run.status run = FAILED
    /\ Run.error run
       = Some "Maximum iterations (3) exceeded. Possible infinite loop detected."
    /\ Run.iteration_count run = 3
    /\ ExecutionLog.node_name <$> Run.execution_logs run
       = ["A"; "B"; "A"; "B"]
    /\ length (Run.execution_logs run) = 4%nat.
Proof.
  set (s0 := initial_loop_state loop_graph initial_state 3).
  assert (node_map !! "A" = Some (function_node "A" "identity")) as HA
    by (vm_compute; reflexivity).
  assert (node_map !! "B" = Some (function_node "B" "identity")) as HB
    by (vm_compute; reflexivity).
  assert (forall h d, exists h',
            _get_next_node h "A" adjacency_map d = (h', Some "B")) as HnA
    by (intros h d; eexists; apply next_of_A).
  assert (forall h d, exists h',
            _get_next_node h "B" adjacency_map d = (h', Some "A")) as HnB
    by (intros h d; eexists; apply next_of_B).
  assert (current_node_name s0 = Some "A") as Hc0 by done.
  assert (visited_nodes s0 = ∅) as Hv0 by done.
  assert (Run.iteration_count (ls_run s0) = 0) as Hk0 by done.
  assert (Run.execution_logs (ls_run s0) = []) as Hl0 by done.
  destruct (identity_pass s0 "A" "B" Hc0 ltac:(lia) HA HnA eq_refl)
    as (s1 & Hb0 & Hc1 & Hv1 & Hk1 & Hl1).
  rewrite Hv0, Hk0 in Hk1. rewrite Hv0 in Hv1. rewrite Hl0 in Hl1.
  rewrite bool_decide_eq_false_2 in Hk1 by (clear; set_solver).
  destruct (identity_pass s1 "B" "A" Hc1 ltac:(lia) HB HnB eq_refl)
    as (s2 & Hb1 & Hc2 & Hv2 & Hk2 & Hl2).
  rewrite Hv1, Hk1 in Hk2. rewrite Hv1 in Hv2. rewrite Hl1 in Hl2.
  rewrite bool_decide_eq_true_2 in Hk2 by set_solver.
  destruct (identity_pass s2 "A" "B" Hc2 ltac:(lia) HA HnA eq_refl)
    as (s3 & Hb2 & Hc3 & Hv3 & Hk3 & Hl3).
  rewrite Hv2, Hk2 in Hk3. rewrite Hv2 in Hv3. rewrite Hl2 in Hl3.
  rewrite bool_decide_eq_true_2 in Hk3 by set_solver.
  destruct (identity_pass s3 "B" "A" Hc3 ltac:(lia) HB HnB eq_refl)
    as (s4 & Hb3 & Hc4 & Hv4 & Hk4 & Hl4).
  rewrite Hv3, Hk3 in Hk4. rewrite Hl3 in Hl4.
  rewrite bool_decide_eq_true_2 in Hk4 by set_solver.
  assert (body s4
          = Raising (ls_heap s4) (ls_run s4) (RuntimeError (cap_message 3)))
    as Hb4.
  { destruct (loop_body_cases identity_registry adjacency_map node_map 3 s4)
      as [[_ Hb]|[(Hlt & _)|(? & ? & ? & Hlt & _)]]; [done|lia|lia]. }
  exists (ls_heap s4),
    (Run.set_completed_at (Some utcnow)
       (Run.set_error (Some (cap_message 3))
          (Run.set_status FAILED (ls_run s4)))).
  split.
  - unfold execute.
    change (enough_fuel loop_graph 3) with 6%nat. fold s0.
    rewrite (while_loop_continue _ _ _ _ 5 s0 s1) by (by rewrite ?Hc0).
    rewrite (while_loop_continue _ _ _ _ 4 s1 s2) by (by rewrite ?Hc1).
    rewrite (while_loop_continue _ _ _ _ 3 s2 s3) by (by rewrite ?Hc2).
    rewrite (while_loop_continue _ _ _ _ 2 s3 s4) by (by rewrite ?Hc3).
    rewrite (while_loop_raising _ _ _ _ 1 s4 _ _ _ ltac:(by rewrite Hc4) Hb4).
    done.
  - simpl. rewrite Hk4.
    assert (length (Run.execution_logs (ls_run s4))
            = length (ExecutionLog.node_name <$> Run.execution_logs (ls_run s4)))
      as -> by (by rewrite length_fmap).
    rewrite Hl4. done.
Qed.

End LoopScenario.

(** ** How a run with a failed node is returned *)

Section FailedNode.
Context `{PyRuntime}.
Import WorkflowState NodeDefinition EdgeDefinition GraphEngine Props.

(** After the [break] of a failed node the statements that follow the loop
    run as after any other exit: in every execution, a log with [success]
    false is the last log of a run returned with status COMPLETED, the
    error of that log and a completion time. *)
Lemma failing_log_run_completed tool_registry graph initial_state
    max_iterations :
  exists h run,
    execute tool_registry graph initial_state max_iterations = Some (h, run)
    /\ forall log,
         log ∈ Run.execution_logs run ->
         ExecutionLog.success log = false ->
         Run.status run = COMPLETED
         /\ Run.error run = ExecutionLog.error log
         /\ is_Some (Run.completed_at run)
         /\ last (Run.execution_logs run) = Some log.
Proof.
  destruct (execute_outcome tool_registry graph initial_state max_iterations)
    as (h & run & Hexec & Hdone & _ & Hcase).
  exists h, run. split; [done|]. intros log Hin Hfail.
  assert (forall logs : list ExecutionLog.t,
            Forall (fun log => ExecutionLog.success log = true) logs ->
            log ∈ logs -> False) as Habsurd.
  { intros logs Hall Hl. rewrite Forall_forall in Hall.
    specialize (Hall log Hl). congruence. }
  destruct Hcase as [(_ & _ & Hall)|[(Hst & pre & log' & Hl & Hall & Hf & He)
                                    |(_ & Hall & _)]].
  - destruct (Habsurd _ Hall Hin).
  - rewrite Hl in Hin. apply elem_of_app in Hin as [Hin|Hin].
    + destruct (Habsurd _ Hall Hin).
    + apply list_elem_of_singleton in Hin as ->.
      repeat split; try done. by rewrite Hl, last_snoc.
  - destruct (Habsurd _ Hall Hin).
Qed.

End FailedNode.

(** ** Concrete runs *)

Section ConcreteRuns.
Import WorkflowState NodeDefinition EdgeDefinition GraphEngine Props Scenario.
#[local] Existing Instance Scenario.runtime.

(** C1 at a failing input. The run of a graph whose only node is a FUNCTION
    node without [tool_name] has one log, with [success] false, and carries
    its error; it is returned with status COMPLETED. *)
Theorem failed_node_run_reported_completed :
  exists h run log,
    execute ∅ untooled_graph ∅ 10 = Some (h, run)
    /\ Run.execution_logs run = [log]
    /\ ExecutionLog.success log = false
    /\ Run.error run = ExecutionLog.error log
    /\ Run.error run = Some "Function node 'A' has no tool_name"
    /\ Run.completed_at run ≠ None
    /\ Run.status run = COMPLETED.
Proof.
  eexists _, _, _. split; [vm_compute; reflexivity|].
  vm_compute. repeat split; done.
Qed.

(** C5 at a failing input. The tool of the only node writes [x = 2] to the
    payload [{x: 1}] and raises. The log has [success] false and both its
    states hold [{x: 1}]; the payload of the returned run holds [{x: 2}]. *)
Theorem failed_tool_payload_not_rolled_back :
  exists h run log,
    execute boom_registry boom_graph {[ "x" := PyInt 1 ]} 10 = Some (h, run)
    /\ Run.execution_logs run = [log]
    /\ ExecutionLog.success log = false
    /\ deref h (ExecutionLog.input_state log) = {[ "x" := PyInt 1 ]}
    /\ deref h (ExecutionLog.output_state log) = {[ "x" := PyInt 1 ]}
    /\ deref h (data (Run.current_state run)) = {[ "x" := PyInt 2 ]}.
Proof.
  eexists _, _, _. split; [vm_compute; reflexivity|].
  vm_compute. repeat split; done.
Qed.

(** The run of the loop scenario on the payload [{x: 1}], evaluated. *)
Lemma loop_scenario_run :
  exists h run,
    execute identity_registry loop_graph {[ "x" := PyInt 1 ]} 3
    = Some (h, run)
    /\ length (Run.execution_logs run) = 4%nat.
Proof. eexists _, _. split; [vm_compute; reflexivity|]. done. Qed.

(** The run of the loop scenario does not have seven logs. *)
Lemma loop_cap_logs_not_seven :
  ~ (exists h run,
       execute identity_registry loop_graph {[ "x" := PyInt 1 ]} 3
       = Some (h, run)
       /\ Run.status run = FAILED
       /\ Run.iteration_count run = 3
       /\ length (Run.execution_logs run) = 7%nat).
Proof.
  intros (h & run & Hexec & _ & _ & Hlen).
  destruct loop_scenario_run as (h' & run' & Hexec' & Hlen').
  rewrite Hexec in Hexec'. injection Hexec' as <- <-. lia.
Qed.

Lemma loop_cap_four_logs_witness :
  (forall state, py_eval "True" state = (state, EvalValue (PyBool true)))
  /\ exists h run,
       execute identity_registry loop_graph {[ "x" := PyInt 1 ]} 3
       = Some (h, run)
       /\ Run.status run = FAILED
       /\ Run.error run
          = Some "Maximum iterations (3) exceeded. Possible infinite loop detected."
       /\ Run.iteration_count run = 3
       /\ ExecutionLog.node_name <$> Run.execution_logs run
          = ["A"; "B"; "A"; "B"]
       /\ length (Run.execution_logs run) = 4%nat.
Proof.
  split; [intros state; reflexivity|].
  apply (@loop_cap_four_logs Scenario.runtime (fun _ => eq_refl)
              {[ "x" := PyInt 1 ]}).
Defined.

(** With a negative cap the counter of the returned run is above the cap. *)
Lemma negative_cap_counter_above_cap :
  exists h run,
    execute identity_registry loop_graph {[ "x" := PyInt 1 ]} (-1)
    = Some (h, run)
    /\ Run.max_iterations run = -1
    /\ Run.iteration_count run = 0
    /\ ~ (Run.iteration_count run <= Run.max_iterations run).
Proof.
  eexists _, _. split; [vm_compute; reflexivity|].
  repeat split; try done. simpl. lia.
Qed.

Lemma iteration_cap_witness :
  0 <= 3
  /\ exists h run,
       execute identity_registry loop_graph {[ "x" := PyInt 1 ]} 3
       = Some (h, run)
       /\ 0 <= Run.iteration_count run <= Run.max_iterations run
       /\ Run.max_iterations run = 3.
Proof.
  assert (0 <= 3) as Hcap by lia.
  split; [exact Hcap|].
  exact (proj1 (proj2 (proj2 (proj2
           (iteration_cap identity_registry loop_graph
              {[ "x" := PyInt 1 ]} 3 Hcap))))).
Defined.

Lemma successor_selection_witness :
  _get_next_node [∅] "A" (_build_adjacency_map (branch_edges "True")) 0
  = ([∅], Some "B")
  /\ _get_next_node [∅] "A" (_build_adjacency_map (branch_edges "False")) 0
     = ([∅], Some "C").
Proof.
  split.
  - apply (proj1 (successor_selection [∅] "A"
                    (_build_adjacency_map (branch_edges "True")) 0)
             [] (EdgeDefinition.mk "A" "B" (Some "True") None) [] [∅] [∅]).
    + vm_compute; reflexivity.
    + constructor.
    + vm_compute; reflexivity.
  - apply (proj1 (proj2 (successor_selection [∅] "A"
                           (_build_adjacency_map (branch_edges "False")) 0))
             [∅] (EdgeDefinition.mk "A" "C" None None) []).
    + apply (declined_cons 0%nat [∅] [∅] [∅]);
        [vm_compute; reflexivity|constructor].
    + vm_compute; reflexivity.
Defined.

Lemma input_state_is_snapshot_witness :
  exists h run log,
    execute boom_registry boom_graph {[ "x" := PyInt 1 ]} 10 = Some (h, run)
    /\ Run.execution_logs run !! 0%nat = Some log
    /\ ExecutionLog.node_name log = "A"
    /\ deref h (ExecutionLog.input_state log) = {[ "x" := PyInt 1 ]}.
Proof.
  destruct (proj2 (input_state_is_snapshot boom_registry boom_graph
                     {[ "x" := PyInt 1 ]} 10)
              (initial_loop_state boom_graph {[ "x" := PyInt 1 ]} 10)
              (function_node "A" "boom"))
    as (h & run & log & Hexec & Hat & Hname & Hsnap).
  - constructor.
  - reflexivity.
  - simpl. lia.
  - vm_compute; reflexivity.
  - exists h, run, log. repeat split; done.
Defined.

Lemma condition_failure_not_surfaced_witness :
  _evaluate_condition [∅] "state['missing']['deep']" 0 = ([∅], false).
Proof.
  apply (proj1 (condition_failure_not_surfaced identity_registry
                  guarded_graph ∅ 10)
           [∅] "state['missing']['deep']" 0%nat ∅ "'missing'").
  vm_compute; reflexivity.
Defined.

(** A condition that raises: the edge A→B guarded by
    [state['missing']['deep']] is not taken on a payload without the key,
    and the run is COMPLETED with no error after the one node A. *)
Example condition_error_run_completed :
  exists h run,
    execute identity_registry guarded_graph {[ "x" := PyInt 1 ]} 10
    = Some (h, run)
    /\ Run.status run = COMPLETED
    /\ Run.error run = None
    /\ ExecutionLog.node_name <$> Run.execution_logs run = ["A"].
Proof.
  eexists _, _. split; [vm_compute; reflexivity|]. done.
Qed.

End ConcreteRuns.

(** * Further properties of the code *)

(** ** The registry: removal, listing, decorator *)

Section RegistryTable.
Context `{PyRuntime}.
Import ToolRegistry.

Lemma elem_of_list_tools (tools : ToolRegistry.t) name :
  name ∈ list_tools tools <-> is_Some (tools !! name).
Proof.
  unfold list_tools. rewrite list_elem_of_fmap. split.
  - intros [[k f] [-> Hin]]. apply elem_of_map_to_list in Hin. by exists f.
  - intros [f Hf]. exists (name, f). split; [done|].
    by apply elem_of_map_to_list.
Qed.

(** X1. [unregister] of a name that is not bound raises a [KeyError]. Of a
    bound name it returns the table without it, so that [exists] is false
    and [get] raises for that name, and every other name is bound as
    before. *)
Theorem unregister_contract (tools : ToolRegistry.t) (name : string) :
  (tools !! name = None ->
     unregister tools name
     = Raise (KeyError ("Tool '" +:+ name +:+ "' not found")))
  /\ (forall f, tools !! name = Some f ->
        exists tools',
          unregister tools name = Return tools'
          /\ exists_ tools' name = false
          /\ (exists msg, get tools' name = Raise (KeyError msg))
          /\ forall other, other ≠ name -> tools' !! other = tools !! other).
Proof.
  split.
  - intros Hnone. unfold unregister. by rewrite Hnone.
  - intros f Hf. exists (delete name tools). unfold unregister. rewrite Hf.
    split; [done|]. split.
    { apply not_true_is_false. rewrite exists_spec, lookup_delete_eq.
      by intros [? ?]. }
    split.
    { unfold get. rewrite lookup_delete_eq. eauto. }
    intros other Hne. by rewrite lookup_delete_ne.
Qed.

(** X2. A [register] that returns binds the name and touches no other
    binding: every other name is bound, or unbound, as before, and the
    listed names are the former ones and the new one. *)
Theorem register_keeps_others (tools tools' : ToolRegistry.t) (name : string)
    (func : pyobject) (override : bool)
    (Hreg : register tools name func override = Return tools') :
  exists_ tools' name = true
  /\ (forall other, other ≠ name ->
        tools' !! other = tools !! other
        /\ exists_ tools' other = exists_ tools other)
  /\ (forall x, x ∈ list_tools tools' <-> x = name \/ x ∈ list_tools tools).
Proof.
  unfold register in Hreg.
  destruct (exists_ tools name && negb override); [discriminate|].
  destruct func as [f|v]; [|discriminate]. injection Hreg as <-.
  split.
  { apply exists_spec. rewrite lookup_insert_eq. by exists f. }
  split.
  - intros other Hne. rewrite lookup_insert_ne by done. split; [done|].
    unfold exists_. by rewrite lookup_insert_ne.
  - intros x. rewrite !elem_of_list_tools.
    destruct (decide (x = name)) as [->|Hne].
    + rewrite lookup_insert_eq. split; [by left|]. intros _. by exists f.
    + rewrite lookup_insert_ne by done. split; [by right|].
      by intros [?|?].
Qed.

(** X3. The three views of the table agree: a name is listed by
    [list_tools] exactly when [exists] is true, exactly when [get] returns a
    callable; no name is listed twice; after [clear] no name is listed. *)
Theorem list_tools_exists_get (tools : ToolRegistry.t) (name : string) :
  (name ∈ list_tools tools <-> exists_ tools name = true)
  /\ (exists_ tools name = true <-> exists f, get tools name = Return f)
  /\ NoDup (list_tools tools)
  /\ list_tools (clear tools) = [].
Proof.
  split; [|split; [|split]].
  - by rewrite elem_of_list_tools, exists_spec.
  - rewrite exists_spec. unfold get. split.
    + intros [f ->]. by exists f.
    + intros [f Hf]. destruct (tools !! name); [done|discriminate].
  - apply NoDup_fst_map_to_list.
  - unfold list_tools, clear. by rewrite map_to_list_empty.
Qed.

(** X4. Registering a callable under a name that is not bound and then
    unregistering that name gives back the table as it was. *)
Theorem register_unregister_round_trip (tools : ToolRegistry.t)
    (name : string) (f : tool) (Hfree : tools !! name = None) :
  exists tools',
    register_tool tools name (Callable f) = Return tools'
    /\ unregister tools' name = Return tools.
Proof.
  exists (<[name := f]> tools). unfold register_tool, register.
  assert (exists_ tools name = false) as ->.
  { apply not_true_is_false. rewrite exists_spec, Hfree. by intros [? ?]. }
  split; [done|]. unfold unregister. rewrite lookup_insert_eq.
  by rewrite delete_insert_id.
Qed.

(** X5. The decorator binds the undecorated function under the given name,
    or under the function's own name when no name or an empty one is given;
    the wrapper it returns behaves like the function. When the chosen name
    is already bound the decorator raises a [ValueError]. *)
Theorem tool_decorator_registers (tools : ToolRegistry.t)
    (name : option string) (func_name : string) (func : tool) :
  let key := if opt_truthy name then default "" name else func_name in
  (tools !! key = None ->
     exists tools' wrapper,
       tool_decorator tools name func_name func = Return (tools', wrapper)
       /\ get tools' key = Return func
       /\ forall state, wrapper state = func state)
  /\ (is_Some (tools !! key) ->
        exists msg,
          tool_decorator tools name func_name func = Raise (ValueError msg))
  /\ (name = None \/ name = Some "" -> key = func_name)
  /\ (forall n, name = Some n -> n ≠ "" -> key = n).
Proof.
  intros key. split; [|split; [|split]].
  - intros Hfree. unfold tool_decorator. fold key. unfold register.
    assert (exists_ tools key = false) as ->.
    { apply not_true_is_false. rewrite exists_spec, Hfree. by intros [? ?]. }
    simpl. eexists _, _. split; [reflexivity|]. split; [|done].
    unfold get. by rewrite lookup_insert_eq.
  - intros Hbound. unfold tool_decorator. fold key. unfold register.
    apply exists_spec in Hbound. rewrite Hbound. simpl. eauto.
  - intros [->| ->]; done.
  - intros n -> Hn. subst key. simpl. unfold str_truthy.
    destruct (String.eqb_spec n ""); done.
Qed.

End RegistryTable.

(** ** Startup check of the code review tools *)

Section CodeReviewTools.
Context `{PyRuntime}.
Import NodeDefinition CodeReview.

Lemma check_registered_all registered tool_names :
  Forall (fun n => n ∈ registered) tool_names ->
  check_registered registered tool_names = Return tt.
Proof.
  induction 1 as [|n rest Hn _ IH]; simpl; [done|].
  by rewrite bool_decide_eq_true_2.
Qed.

Lemma check_registered_first_missing registered pre n post :
  Forall (fun n => n ∈ registered) pre ->
  n ∉ registered ->
  check_registered registered (pre ++ n :: post)
  = Raise (RuntimeError ("Required tool '" +:+ n +:+ "' not registered!")).
Proof.
  intros Hpre Hn. induction Hpre as [|m rest Hm _ IH]; simpl.
  - by rewrite bool_decide_eq_false_2.
  - by rewrite bool_decide_eq_true_2.
Qed.

Lemma check_registered_returns registered tool_names :
  check_registered registered tool_names = Return tt ->
  Forall (fun n => n ∈ registered) tool_names.
Proof.
  induction tool_names as [|n rest IH]; simpl; [by constructor|].
  destruct (bool_decide (n ∈ registered)) eqn:Hn; simpl; [|discriminate].
  intros Hrest. constructor; [by apply bool_decide_eq_true in Hn|by apply IH].
Qed.

Lemma checked_tools_bound (tools : ToolRegistry.t) :
  register_code_review_tools tools = Return tt ->
  Forall (fun n => is_Some (tools !! n)) required_tools.
Proof.
  unfold register_code_review_tools. intros Hret.
  apply check_registered_returns in Hret.
  eapply Forall_impl; [exact Hret|]. intros n Hn.
  by apply elem_of_list_tools.
Qed.

(** X6. [register_code_review_tools] returns exactly when the five required
    tools are bound; otherwise it raises a [RuntimeError] that names the
    first required tool, in the order of the list, that is not bound. *)
Theorem register_code_review_tools_checks (tools : ToolRegistry.t) :
  (register_code_review_tools tools = Return tt
   <-> Forall (fun n => is_Some (tools !! n)) required_tools)
  /\ (forall pre n post,
        required_tools = pre ++ n :: post ->
        Forall (fun n => is_Some (tools !! n)) pre ->
        tools !! n = None ->
        register_code_review_tools tools
        = Raise (RuntimeError
                   ("Required tool '" +:+ n +:+ "' not registered!"))).
Proof.
  unfold register_code_review_tools. split; [split|].
  - intros Hret. apply check_registered_returns in Hret.
    eapply Forall_impl; [exact Hret|]. intros n Hn.
    by apply elem_of_list_tools.
  - intros Hall. apply check_registered_all.
    eapply Forall_impl; [exact Hall|]. intros n Hn.
    by apply elem_of_list_tools.
  - intros pre n post -> Hpre Hn. apply check_registered_first_missing.
    + eapply Forall_impl; [exact Hpre|]. intros m Hm.
      by apply elem_of_list_tools.
    + rewrite elem_of_list_tools, Hn. by intros [? ?].
Qed.

(** X7. Once [register_code_review_tools] has returned, every node of the
    code review graph names a tool that [get] finds: no node of that graph
    can fail for a missing tool. *)
Theorem code_review_tools_resolve (tools : ToolRegistry.t)
    (Hchecked : register_code_review_tools tools = Return tt) :
  Forall (fun node =>
            node_type node = FUNCTION
            /\ exists tn f,
                 tool_name node = Some tn
                 /\ opt_truthy (tool_name node) = true
                 /\ ToolRegistry.get tools tn = Return f)
         (GraphDefinition.nodes create_code_review_graph).
Proof.
  apply checked_tools_bound in Hchecked.
  unfold required_tools in Hchecked.
  repeat match goal with
         | Hall : Forall _ (_ :: _) |- _ =>
             apply Forall_cons in Hall as [[? ?] Hall]
         end.
  unfold create_code_review_graph. simpl.
  repeat constructor; simpl; try done;
    eexists _, _; (split; [reflexivity|]); (split; [reflexivity|]);
    unfold ToolRegistry.get;
    match goal with
    | Hf : ?m !! ?k = Some _ |- context [?m !! ?k] => by rewrite Hf
    end.
Qed.

End CodeReviewTools.

(** ** The checks of [create_graph] *)

Section CreateGraph.
Context `{PyRuntime}.
Import EdgeDefinition Routes.

Lemma check_edges_none node_names edges :
  check_edges node_names edges = None
  <-> Forall (fun e => from_node e ∈ node_names /\ to_node e ∈ node_names)
             edges.
Proof.
  induction edges as [|e rest IH]; simpl; [by split; [constructor|]|].
  destruct (bool_decide (from_node e ∈ node_names)) eqn:Hf; simpl.
  - apply bool_decide_eq_true in Hf.
    destruct (bool_decide (to_node e ∈ node_names)) eqn:Ht; simpl.
    + apply bool_decide_eq_true in Ht. rewrite IH. split.
      * intros Hall. by constructor.
      * intros Hall. by apply Forall_cons in Hall as [_ ?].
    + apply bool_decide_eq_false in Ht. split; [done|].
      intros Hall. apply Forall_cons in Hall as [[_ ?] _]. done.
  - apply bool_decide_eq_false in Hf. split; [done|].
    intros Hall. apply Forall_cons in Hall as [[? _] _]. done.
Qed.

Lemma check_edges_first_bad node_names pre e post :
  Forall (fun e => from_node e ∈ node_names /\ to_node e ∈ node_names) pre ->
  (from_node e ∉ node_names ->
   check_edges node_names (pre ++ e :: post)
   = Some (HTTP 400 ("Edge from_node '" +:+ from_node e
                     +:+ "' not found in nodes")))
  /\ (from_node e ∈ node_names -> to_node e ∉ node_names ->
      check_edges node_names (pre ++ e :: post)
      = Some (HTTP 400 ("Edge to_node '" +:+ to_node e
                        +:+ "' not found in nodes"))).
Proof.
  induction 1 as [|e0 rest [Hf Ht] _ IH]; simpl.
  - split.
    + intros Hbad. by rewrite bool_decide_eq_false_2.
    + intros Hok Hbad.
      by rewrite bool_decide_eq_true_2, bool_decide_eq_false_2.
  - by rewrite !bool_decide_eq_true_2.
Qed.

(** X8. [create_graph] hands a graph to the storage exactly when the entry
    point is the name of a node and both ends of every edge are names of
    nodes; the graph then has the nodes, the edges and the entry point of the
    request, in the order given. Uniqueness of the node names is not
    looked at. Otherwise the request is refused with status 400: for the
    entry point first, else for the first edge with a bad end, its
    [from_node] before its [to_node]. *)
Theorem create_graph_checks (request : CreateGraphRequest.t) :
  let names := NodeDefinition.name <$> CreateGraphRequest.nodes request in
  let sound e := from_node e ∈ names /\ to_node e ∈ names in
  ((exists graph, create_graph request = inr graph)
   <-> CreateGraphRequest.entry_point request ∈ names
       /\ Forall sound (CreateGraphRequest.edges request))
  /\ (forall graph,
        create_graph request = inr graph ->
        GraphDefinition.nodes graph = CreateGraphRequest.nodes request
        /\ GraphDefinition.edges graph = CreateGraphRequest.edges request
        /\ GraphDefinition.entry_point graph
           = CreateGraphRequest.entry_point request
        /\ GraphDefinition.name graph = CreateGraphRequest.name request)
  /\ (CreateGraphRequest.entry_point request ∉ names ->
        create_graph request
        = inl (HTTP 400 ("Entry point '"
                         +:+ CreateGraphRequest.entry_point request
                         +:+ "' not found in nodes")))
  /\ (forall pre e post,
        CreateGraphRequest.entry_point request ∈ names ->
        CreateGraphRequest.edges request = pre ++ e :: post ->
        Forall sound pre ->
        (from_node e ∉ names ->
         create_graph request
         = inl (HTTP 400 ("Edge from_node '" +:+ from_node e
                          +:+ "' not found in nodes")))
        /\ (from_node e ∈ names -> to_node e ∉ names ->
            create_graph request
            = inl (HTTP 400 ("Edge to_node '" +:+ to_node e
                             +:+ "' not found in nodes")))).
Proof.
  intros names sound. unfold create_graph.
  set (node_names :=
         list_to_set (C := gset string)
           (NodeDefinition.name <$> CreateGraphRequest.nodes request)).
  assert (forall x, x ∈ node_names <-> x ∈ names) as Hnames
    by (intros x; unfold node_names; apply elem_of_list_to_set).
  assert (forall edges,
            Forall (fun e => from_node e ∈ node_names
                             /\ to_node e ∈ node_names) edges
            <-> Forall sound edges) as Hsound.
  { intros edges. apply Forall_iff. intros e. unfold sound.
    by rewrite !Hnames. }
  split; [|split; [|split]].
  - destruct (bool_decide (CreateGraphRequest.entry_point request
                           ∈ node_names)) eqn:He; simpl.
    + apply bool_decide_eq_true in He. rewrite Hnames in He.
      destruct (check_edges node_names (CreateGraphRequest.edges request))
        as [e|] eqn:Hc.
      * split; [intros [? ?]; discriminate|]. intros [_ Hall].
        apply Hsound, check_edges_none in Hall. congruence.
      * split; [|by eauto]. intros _. split; [done|].
        by apply Hsound, check_edges_none.
    + apply bool_decide_eq_false in He. rewrite Hnames in He.
      split; [intros [? ?]; discriminate|]. by intros [? _].
  - intros graph.
    destruct (negb _); [discriminate|].
    destruct (check_edges _ _); [discriminate|].
    by intros [= <-].
  - intros Hbad. rewrite <- Hnames in Hbad.
    by rewrite bool_decide_eq_false_2.
  - intros pre e post Hentry Hsplit Hpre.
    rewrite <- Hnames in Hentry. rewrite bool_decide_eq_true_2 by done.
    simpl. rewrite Hsplit.
    apply Hsound in Hpre.
    destruct (check_edges_first_bad node_names pre e post Hpre) as [Hf Ht].
    split.
    + intros Hbad. rewrite <- Hnames in Hbad. by rewrite (Hf Hbad).
    + intros Hok Hbad. rewrite <- Hnames in Hok, Hbad.
      by rewrite (Ht Hok Hbad).
Qed.

End CreateGraph.

(** ** The two maps built from the graph *)

Section GraphMaps.
Import NodeDefinition EdgeDefinition GraphEngine.

Lemma adjacency_fold edges : forall (m : gmap string (list EdgeDefinition.t)) n,
  foldl (fun adjacency_map edge =>
           <[from_node edge :=
               default [] (adjacency_map !! from_node edge) ++ [edge]]>
             adjacency_map) m edges !! n
  = match List.filter (fun e => bool_decide (from_node e = n)) edges with
    | [] => m !! n
    | out => Some (default [] (m !! n) ++ out)
    end.
Proof.
  induction edges as [|e edges IH]; intros m n; simpl; [done|].
  rewrite IH. destruct (decide (from_node e = n)) as [Heq|Hne].
  - rewrite (bool_decide_eq_true_2 _ Heq). subst n.
    rewrite lookup_insert_eq. simpl.
    destruct (List.filter _ edges); simpl; [done|].
    by rewrite <- app_assoc.
  - rewrite (bool_decide_eq_false_2 _ Hne).
    by rewrite lookup_insert_ne.
Qed.

Lemma filter_nil_iff (edges : list EdgeDefinition.t) n :
  List.filter (fun e => bool_decide (from_node e = n)) edges = []
  <-> Forall (fun e => from_node e ≠ n) edges.
Proof.
  induction edges as [|e edges IH]; simpl; [by split; [constructor|]|].
  destruct (decide (from_node e = n)) as [Heq|Hne].
  - rewrite (bool_decide_eq_true_2 _ Heq). split; [done|].
    intros Hall. by apply Forall_cons in Hall as [? _].
  - rewrite (bool_decide_eq_false_2 _ Hne), IH. split.
    + intros Hall. by constructor.
    + intros Hall. by apply Forall_cons in Hall as [_ ?].
Qed.

(** X9. The adjacency map gives, for every node name, the edges that leave
    it in the order they were supplied. A name no edge leaves is not a key
    of the map, and no key is bound to an empty list. *)
Theorem adjacency_map_lookup (edges : list EdgeDefinition.t) (n : string) :
  default [] (_build_adjacency_map edges !! n)
  = List.filter (fun e => bool_decide (from_node e = n)) edges
  /\ (_build_adjacency_map edges !! n = None
      <-> Forall (fun e => from_node e ≠ n) edges)
  /\ _build_adjacency_map edges !! n ≠ Some [].
Proof.
  unfold _build_adjacency_map. rewrite adjacency_fold, lookup_empty.
  rewrite <- filter_nil_iff.
  destruct (List.filter _ edges) as [|e out]; simpl.
  - done.
  - split; [done|]. split; [by split|done].
Qed.

Lemma node_map_fold nodes : forall (m : gmap string NodeDefinition.t) n,
  foldl (fun node_map node => <[name node := node]> node_map) m nodes !! n
  = match last (List.filter (fun node => bool_decide (name node = n)) nodes)
    with
    | Some node => Some node
    | None => m !! n
    end.
Proof.
  induction nodes as [|x nodes IH]; intros m n; simpl; [done|].
  rewrite IH. destruct (decide (name x = n)) as [Heq|Hne].
  - rewrite (bool_decide_eq_true_2 _ Heq). subst n.
    destruct (List.filter _ nodes) as [|y rest] eqn:Hf; simpl.
    + by rewrite lookup_insert_eq.
    + by destruct (last (y :: rest)) eqn:Hl;
        [|apply last_None in Hl; discriminate].
  - rewrite (bool_decide_eq_false_2 _ Hne).
    destruct (last _); [done|]. by rewrite lookup_insert_ne.
Qed.

Lemma last_filter_spec (nodes : list NodeDefinition.t) n :
  match last (List.filter (fun node => bool_decide (name node = n)) nodes)
  with
  | Some node => name node = n /\ node ∈ nodes
  | None => n ∉ name <$> nodes
  end.
Proof.
  destruct (last _) as [node|] eqn:Hl.
  - apply last_Some in Hl as [pre Hl].
    assert (In node (List.filter (fun node => bool_decide (name node = n))
                                 nodes)) as Hin.
    { rewrite Hl. apply in_or_app. right. by left. }
    apply filter_In in Hin as [Hin Hn].
    apply bool_decide_eq_true in Hn. split; [done|].
    by apply list_elem_of_In.
  - apply last_None in Hl. intros Hin.
    apply list_elem_of_fmap in Hin as (node & -> & Hin).
    assert (In node (List.filter (fun x => bool_decide (name x = name node))
                                 nodes)) as Hf.
    { apply filter_In. split; [by apply list_elem_of_In|].
      by apply bool_decide_eq_true. }
    rewrite Hl in Hf. destruct Hf.
Qed.

(** X10. The node map binds a name to the last node of the list that has
    it: of two nodes with one name the later is the one the engine runs. A
    node found under a name has that name and is a node of the graph; a name
    is unbound exactly when no node has it. *)
Theorem build_node_map_lookup (nodes : list NodeDefinition.t) (n : string) :
  build_node_map nodes !! n
  = last (List.filter (fun node => bool_decide (name node = n)) nodes)
  /\ (forall node, build_node_map nodes !! n = Some node ->
        name node = n /\ node ∈ nodes)
  /\ (build_node_map nodes !! n = None <-> n ∉ name <$> nodes).
Proof.
  unfold build_node_map. rewrite node_map_fold, lookup_empty.
  pose proof (last_filter_spec nodes n) as Hspec.
  destruct (last _) as [node|].
  - split; [done|]. split; [by intros ? [= <-]|].
    split; [done|]. intros Hout. destruct Hspec as [<- Hin].
    destruct Hout. apply list_elem_of_fmap. eauto.
  - split; [done|]. split; [done|]. by split.
Qed.

(** A node found in the node map under a name has that name. *)
Lemma node_map_name nodes n node :
  build_node_map nodes !! n = Some node -> name node = n /\ node ∈ nodes.
Proof.
  unfold build_node_map. rewrite node_map_fold, lookup_empty.
  pose proof (last_filter_spec nodes n) as Hspec.
  destruct (last _) as [x|]; [|done]. by intros [= <-].
Qed.

Lemma node_map_none nodes n :
  build_node_map nodes !! n = None <-> n ∉ name <$> nodes.
Proof.
  unfold build_node_map. rewrite node_map_fold, lookup_empty.
  pose proof (last_filter_spec nodes n) as Hspec.
  destruct (last _) as [x|]; [|by split].
  split; [done|]. intros Hout. destruct Hspec as [<- Hin].
  destruct Hout. apply list_elem_of_fmap. eauto.
Qed.

End GraphMaps.

(** ** What a node execution logs *)

Section NodeOutcomes.
Context `{PyRuntime}.
Import WorkflowState NodeDefinition EdgeDefinition GraphEngine.

Lemma deref_app_l (h k : heap) l :
  (l < length h)%nat -> deref (h ++ k) l = deref h l.
Proof. intros Hl. unfold deref. by rewrite lookup_app_l. Qed.

Lemma deref_app_second (h : heap) (a b : payload) :
  deref (h ++ [a; b]) (S (length h)) = b.
Proof.
  unfold deref. rewrite lookup_app_r by lia.
  by rewrite Nat.sub_succ_l, Nat.sub_diag by lia.
Qed.

Lemma deref_app_first (h : heap) (a b : payload) :
  deref (h ++ [a; b]) (length h) = a.
Proof.
  unfold deref. rewrite lookup_app_r by lia. by rewrite Nat.sub_diag.
Qed.

Lemma deref_app_nth (h k : heap) i :
  deref (h ++ k) (length h + i) = default ∅ (k !! i).
Proof.
  unfold deref. rewrite lookup_app_r by lia.
  by replace (length h + i - length h)%nat with i by lia.
Qed.

(** The run of a node that is no FUNCTION node, in full. *)
Lemma pass_through_run tool_registry h node state iteration :
  node_type node ≠ FUNCTION ->
  (data state < length h)%nat ->
  _execute_node tool_registry h node state iteration
  = (h ++ [deref h (data state); deref h (data state); deref h (data state)],
     ExecutionLog.mk (name node) utcnow (length h + 1) (length h + 2)
                     true None).
Proof.
  intros Htype Hstate. unfold _execute_node, deepcopy, alloc.
  assert (deref (h ++ [deref h (data state)]) (data state)
          = deref h (data state)) as Hsame by (apply deref_app_l; lia).
  destruct (node_type node); [done|..]; simpl; unfold dict_field, alloc;
    simpl; rewrite Hsame, !length_app, <- !app_assoc; simpl;
    rewrite deref_app_new;
    by replace (length h + 1 + 1)%nat with (length h + 2)%nat by lia.
Qed.

(** X11. A CONDITIONAL, START or END node never fails, whatever the
    registry holds: its log has [success] true and no error, [input_state]
    and [output_state] both hold what the payload holds, and the payload is
    not written to. *)
Theorem pass_through_node tool_registry h node state iteration
    (Htype : node_type node ≠ FUNCTION)
    (Hstate : (data state < length h)%nat) :
  let '(h', log) := _execute_node tool_registry h node state iteration in
  ExecutionLog.success log = true
  /\ ExecutionLog.error log = None
  /\ ExecutionLog.node_name log = name node
  /\ deref h' (ExecutionLog.input_state log) = deref h (data state)
  /\ deref h' (ExecutionLog.output_state log) = deref h (data state)
  /\ deref h' (data state) = deref h (data state).
Proof.
  rewrite pass_through_run by done. simpl.
  rewrite !deref_app_nth. simpl.
  repeat split; try done. by apply deref_app_l.
Qed.

(** The log of a failed node, in full. *)
Lemma failure_log_run (h0 : heap) node (snapshot : payload) n e :
  (n < length h0)%nat ->
  deref h0 n = snapshot ->
  failure_log h0 node n e
  = (h0 ++ [snapshot; snapshot],
     ExecutionLog.mk (name node) utcnow (length h0) (length h0 + 1)
                     false (Some (str_exc e))).
Proof.
  intros Hn Hsnap. unfold failure_log, dict_field, alloc. simpl.
  rewrite (deref_app_l h0 _ n) by done.
  rewrite Hsnap, length_app, <- app_assoc. done.
Qed.

(** The run of a FUNCTION node whose tool is registered, in full. *)
Lemma function_node_run tool_registry h node state iteration f :
  node_type node = FUNCTION ->
  opt_truthy (tool_name node) = true ->
  tool_registry !! default "" (tool_name node) = Some f ->
  (data state < length h)%nat ->
  let p := deref h (data state) in
  let h0 := store (h ++ [p]) (data state) (mutated (f p)) in
  _execute_node tool_registry h node state iteration
  = match result (f p) with
    | Returns (PyDict m) =>
        (h0 ++ [p; m],
         ExecutionLog.mk (name node) utcnow (length h + 1) (length h + 2)
                         true None)
    | Returns v =>
        (h0 ++ [p; p],
         ExecutionLog.mk (name node) utcnow (length h + 1) (length h + 2)
                         false (Some (validation_text v)))
    | Raises text =>
        (h0 ++ [p; p],
         ExecutionLog.mk (name node) utcnow (length h + 1) (length h + 2)
                         false (Some text))
    end.
Proof.
  intros Htype Htool Hf Hstate p h0.
  assert (deref (h ++ [p]) (data state) = p) as Hsame
    by (apply deref_app_l; lia).
  assert (length h0 = (length h + 1)%nat) as Hlen
    by (unfold h0; rewrite length_store, length_app; simpl; lia).
  assert (deref h0 (length h) = p) as Hsnap.
  { unfold h0. rewrite deref_store_other by lia. apply deref_app_new. }
  unfold _execute_node, deepcopy, alloc. rewrite Htype.
  unfold _execute_function_node, ToolRegistry.get. rewrite Htool, Hf.
  simpl. fold p. rewrite Hsame. fold h0.
  assert (forall e,
            failure_log h0 node (length h) e
            = (h0 ++ [p; p],
               ExecutionLog.mk (name node) utcnow (length h + 1)
                 (length h + 2) false (Some (str_exc e)))) as Hfail.
  { intros e. rewrite (failure_log_run h0 node p) by (done || lia).
    rewrite Hlen.
    by replace (length h + 1 + 1)%nat with (length h + 2)%nat by lia. }
  destruct (result (f p)) as [v|text]; [|apply Hfail].
  destruct v; try apply Hfail.
  unfold success_log, dict_field, alloc. simpl.
  rewrite Hsnap, !length_app, Hlen, <- app_assoc. simpl.
  by replace (length h + 1 + 1)%nat with (length h + 2)%nat by lia.
Qed.


(** X12. A FUNCTION node whose tool is registered is logged by what the tool
    does. When the tool returns a mapping the log has [success] true and
    that mapping as [output_state]. When it returns anything else, or
    raises, the log has [success] false, the validation error or the text
    of the exception as [error], and the snapshot as [output_state]. In
    every case [input_state] is the payload as dispatched, and the payload
    itself holds what the tool left in it. *)
Theorem function_node_outcomes tool_registry h node state iteration f
    (Htype : node_type node = FUNCTION)
    (Htool : opt_truthy (tool_name node) = true)
    (Hf : tool_registry !! default "" (tool_name node) = Some f)
    (Hstate : (data state < length h)%nat) :
  let p := deref h (data state) in
  let '(h', log) := _execute_node tool_registry h node state iteration in
  deref h' (ExecutionLog.input_state log) = p
  /\ deref h' (data state) = mutated (f p)
  /\ ExecutionLog.node_name log = name node
  /\ (forall m, result (f p) = Returns (PyDict m) ->
        ExecutionLog.success log = true
        /\ ExecutionLog.error log = None
        /\ deref h' (ExecutionLog.output_state log) = m)
  /\ (forall v, result (f p) = Returns v ->
        (forall m, v ≠ PyDict m) ->
        ExecutionLog.success log = false
        /\ ExecutionLog.error log = Some (validation_text v)
        /\ deref h' (ExecutionLog.output_state log) = p)
  /\ (forall text, result (f p) = Raises text ->
        ExecutionLog.success log = false
        /\ ExecutionLog.error log = Some text
        /\ deref h' (ExecutionLog.output_state log) = p).
Proof.
  intros p.
  rewrite (function_node_run tool_registry h node state iteration f)
    by done.
  fold p. set (h0 := store (h ++ [p]) (data state) (mutated (f p))).
  assert (length h0 = (length h + 1)%nat) as Hlen
    by (unfold h0; rewrite length_store, length_app; simpl; lia).
  assert (deref h0 (data state) = mutated (f p)) as Hd.
  { unfold h0. apply deref_store_same. rewrite length_app; simpl; lia. }
  assert (forall a b : payload,
            deref (h0 ++ [a; b]) (length h + 1) = a
            /\ deref (h0 ++ [a; b]) (length h + 2) = b
            /\ deref (h0 ++ [a; b]) (data state) = mutated (f p))
    as Hat.
  { intros a b.
    replace (length h + 1)%nat with (length h0 + 0)%nat by lia.
    replace (length h + 2)%nat with (length h0 + 1)%nat by lia.
    rewrite !deref_app_nth. simpl. repeat split; try done.
    rewrite deref_app_l by lia. done. }
  destruct (Hat p p) as (Hi & Ho & Hp).
  destruct (result (f p)) as [v|text] eqn:Hres.
  - destruct v as [|b|n|s0|l|m]; simpl.
    1-5: (split; [done|]; split; [done|]; split; [done|];
          split; [intros m Hm; discriminate|];
          split; [by intros v' [= <-] _|intros text Ht; discriminate]).
    destruct (Hat p m) as (Hi' & Ho' & Hp').
    split; [done|]. split; [done|]. split; [done|].
    split; [by intros m' [= <-]|].
    split; [|intros text Ht; discriminate].
    intros v' [= <-] Hv. by destruct (Hv m).
  - simpl. split; [done|]. split; [done|]. split; [done|].
    split; [intros m Hm; discriminate|].
    split; [intros v' Hv; discriminate|]. by intros text' [= <-].
Qed.


End NodeOutcomes.

(** ** More on the passes through the loop *)

Section Passes.
Context `{PyRuntime}.
Import WorkflowState NodeDefinition EdgeDefinition GraphEngine Props Traces.

Variable tool_registry : ToolRegistry.t.
Variable adjacency_map : gmap string (list EdgeDefinition.t).
Variable node_map : gmap string NodeDefinition.t.
Variable max_iterations : Z.

#[local] Abbreviation body := (loop_body tool_registry adjacency_map node_map
                                         max_iterations).

(** A successor is the [to_node] of an outgoing edge. *)
Lemma first_satisfied_edge state es : forall h h' next,
  first_satisfied h state es = (h', Some next) ->
  exists e, e ∈ es /\ to_node e = next.
Proof.
  induction es as [|e es IH]; intros h h' next; simpl; [discriminate|].
  destruct (_evaluate_condition h _ state) as [h1 taken]. destruct taken.
  - intros [= <- <-]. exists e. split; [left|done].
  - intros Hrest. apply IH in Hrest as (e' & Hin & Hto).
    exists e'. split; [by right|done].
Qed.

Lemma _get_next_node_edge h current state h' next :
  _get_next_node h current adjacency_map state = (h', Some next) ->
  exists e, e ∈ default [] (adjacency_map !! current) /\ to_node e = next.
Proof.
  unfold _get_next_node.
  destruct (default [] (adjacency_map !! current)) as [|e0 out] eqn:Hout;
    [discriminate|].
  destruct (first_satisfied h state _) as [h1 [n|]] eqn:Hf.
  - intros [= <- <-]. apply first_satisfied_edge in Hf as (e & Hin & Hto).
    exists e. split; [|done].
    apply list_elem_of_In. apply list_elem_of_In, filter_In in Hin as [Hin _].
    done.
  - destruct (List.filter (fun e => negb (has_condition e)) (e0 :: out))
      as [|u us] eqn:Hu; [discriminate|].
    intros [= <- <-]. exists u. split; [|done].
    assert (In u (List.filter (fun e => negb (has_condition e)) (e0 :: out)))
      as Hin by (rewrite Hu; by left).
    apply filter_In in Hin as [Hin _]. by apply list_elem_of_In.
Qed.

(** Fields of the run a pass does not touch, and the node it records. *)
Lemma body_run_fields s :
  let run := ls_run s in
  let run' := control_run (body s) in
  Run.run_id run' = Run.run_id run
  /\ Run.graph_id run' = Run.graph_id run
  /\ Run.started_at run' = Run.started_at run
  /\ ((exists h e, body s = Raising h run e)
      \/ Run.current_node run' = Some (default "" (current_node_name s))).
Proof.
  intros run run'. subst run run'.
  destruct (loop_body_cases tool_registry adjacency_map node_map
              max_iterations s) as [[_ Hb]|[(_ & _ & Hb)|Hb]].
  - rewrite Hb. simpl. repeat split; try done. left. eauto.
  - rewrite Hb. simpl. repeat split; try done. left. eauto.
  - destruct Hb as (node & h1 & log & _ & _ & _ & [[_ Hb]|[_ Hb]]).
    + rewrite Hb. simpl. repeat split; try done. by right.
    + rewrite Hb.
      pose proof (advance_cases adjacency_map h1
        (Run.set_execution_logs (Run.execution_logs (ls_run s) ++ [log])
           (Run.set_current_node (Some (default "" (current_node_name s)))
              (ls_run s)))
        (default "" (current_node_name s)) (visited_nodes s) log) as Hadv.
      unfold update_state, dict_field, alloc in Hadv.
      destruct Hadv as (h3 & next_node & _ & [[Hfalsy ->]|[Htruthy ->]]);
        simpl; unfold count_revisit; rewrite ?Hfalsy, ?Htruthy; simpl.
      * repeat split; try done. by right.
      * destruct (bool_decide _); repeat split; try done; by right.
Qed.

(** The next node of a pass that continues is reached by an edge that
    leaves the current one. *)
Lemma continue_edge s s' :
  body s = Continue s' ->
  exists next e,
    current_node_name s' = Some next
    /\ e ∈ default [] (adjacency_map !! default "" (current_node_name s))
    /\ to_node e = next.
Proof.
  intros Hbody.
  destruct (loop_body_cases tool_registry adjacency_map node_map
              max_iterations s) as [[_ Hb]|[(_ & _ & Hb)|Hb]];
    [congruence|congruence|].
  destruct Hb as (node & h1 & log & _ & _ & _ & [[_ Hb]|[_ Hb]]);
    [congruence|].
  rewrite Hbody in Hb. symmetry in Hb.
  pose proof (advance_cases adjacency_map h1
    (Run.set_execution_logs (Run.execution_logs (ls_run s) ++ [log])
       (Run.set_current_node (Some (default "" (current_node_name s)))
          (ls_run s)))
    (default "" (current_node_name s)) (visited_nodes s) log) as Hadv.
  unfold update_state, dict_field, alloc in Hadv.
  destruct Hadv as (h3 & next_node & Hnext & [[_ Hadv]|[Htruthy Hadv]]);
    rewrite Hb in Hadv; [discriminate|].
  injection Hadv as ->. simpl.
  destruct next_node as [next|]; [|discriminate].
  apply _get_next_node_edge in Hnext as (e & Hin & Hto).
  by exists next, e.
Qed.

End Passes.

(** ** More on every execution *)

Section MoreRuns.
Context `{PyRuntime}.
Import WorkflowState NodeDefinition EdgeDefinition GraphEngine Props Traces.

Variable tool_registry : ToolRegistry.t.
Variable graph : GraphDefinition.t.
Variable initial_state : payload.
Variable max_iterations : Z.

#[local] Abbreviation adjacency_map :=
  (_build_adjacency_map (GraphDefinition.edges graph)).
#[local] Abbreviation node_map :=
  (build_node_map (GraphDefinition.nodes graph)).
#[local] Abbreviation body :=
  (loop_body tool_registry adjacency_map node_map max_iterations).
#[local] Abbreviation init :=
  (initial_loop_state graph initial_state max_iterations).
#[local] Abbreviation passes :=
  (reachable tool_registry adjacency_map node_map max_iterations init).
#[local] Abbreviation names_of run :=
  (ExecutionLog.node_name <$> Run.execution_logs run).

(** An edge listed for a node in the adjacency map is an edge of the graph
    that leaves that node. *)
Lemma adjacency_edge e c :
  e ∈ default [] (adjacency_map !! c) ->
  e ∈ GraphDefinition.edges graph /\ from_node e = c.
Proof.
  unfold _build_adjacency_map. rewrite adjacency_fold, lookup_empty.
  intros Hin.
  assert (In e (List.filter (fun e => bool_decide (from_node e = c))
                            (GraphDefinition.edges graph))) as Hf.
  { destruct (List.filter _ _) as [|x out] eqn:Hl.
    - simpl in Hin. by apply elem_of_nil in Hin.
    - simpl in Hin. by apply list_elem_of_In. }
  apply filter_In in Hf as [Hf Hc]. apply bool_decide_eq_true in Hc.
  split; [by apply list_elem_of_In|done].
Qed.

Lemma execute_unique h run h' run' :
  execute tool_registry graph initial_state max_iterations = Some (h, run) ->
  execute tool_registry graph initial_state max_iterations = Some (h', run') ->
  h' = h /\ run' = run.
Proof. intros H1 H2. rewrite H1 in H2. by injection H2 as <- <-. Qed.

(** X14. The run [execute] returns has the id of the graph, the cap it was
    called with, a start and a completion time, and a status that is
    COMPLETED or FAILED, never PENDING or RUNNING; a FAILED run has an
    error. *)
Theorem returned_run_shape :
  exists h run,
    execute tool_registry graph initial_state max_iterations = Some (h, run)
    /\ Run.graph_id run = GraphDefinition.graph_id graph
    /\ Run.max_iterations run = max_iterations
    /\ Run.started_at run = Some utcnow
    /\ Run.completed_at run = Some utcnow
    /\ (Run.status run = COMPLETED \/ Run.status run = FAILED)
    /\ (Run.status run = FAILED -> Run.error run ≠ None).
Proof.
  destruct (execute_rule tool_registry graph initial_state max_iterations
    (fun s => Run.graph_id (ls_run s) = GraphDefinition.graph_id graph
              /\ Run.started_at (ls_run s) = Some utcnow)
    (fun r => Run.graph_id r.1.2 = GraphDefinition.graph_id graph
              /\ Run.started_at r.1.2 = Some utcnow))
    as (r & Hexec & Hid & Hstart).
  - unfold initial_loop_state, dict_field, alloc. done.
  - intros s s' _ [Hid Hst] _ Hb.
    destruct (body_run_fields tool_registry adjacency_map node_map
                max_iterations s) as (_ & Hid' & Hst' & _).
    rewrite Hb in Hid', Hst'. simpl in *. split; congruence.
  - by intros s _ HI _.
  - intros s h run _ [Hid Hst] _ Hb.
    destruct (body_run_fields tool_registry adjacency_map node_map
                max_iterations s) as (_ & Hid' & Hst' & _).
    rewrite Hb in Hid', Hst'. simpl in *. split; congruence.
  - intros s h run e _ [Hid Hst] _ Hb.
    destruct (body_run_fields tool_registry adjacency_map node_map
                max_iterations s) as (_ & Hid' & Hst' & _).
    rewrite Hb in Hid', Hst'. simpl in *. split; congruence.
  - destruct (execute_outcome tool_registry graph initial_state
                max_iterations) as (h & run & Hexec' & _ & Hmax & Hcase).
    exists h, run. split; [done|].
    rewrite Hexec in Hexec'.
    assert (finish r = (h, run)) as Hfin by congruence.
    assert (run = (finish r).2) as Hrun by (by rewrite Hfin).
    assert (Run.graph_id run = Run.graph_id r.1.2
            /\ Run.started_at run = Run.started_at r.1.2
            /\ Run.completed_at run = Some utcnow) as (Hg & Hs & Hc).
    { rewrite Hrun. by destruct r as [[h0 run0] [e|]]. }
    split; [congruence|]. split; [done|]. split; [congruence|].
    split; [done|].
    destruct Hcase as [(Hst & _)|[(Hst & _)|(Hst & _ & Herr)]].
    + split; [by left|]. congruence.
    + split; [by left|]. congruence.
    + split; [by right|]. intros _. destruct Herr as [->|[n ->]]; done.
Qed.

(** X15. Execution stops at the first node that fails: a log with [success]
    false is the last log of the returned run. *)
Theorem stops_at_first_failure :
  exists h run,
    execute tool_registry graph initial_state max_iterations = Some (h, run)
    /\ forall i log,
         Run.execution_logs run !! i = Some log ->
         ExecutionLog.success log = false ->
         S i = length (Run.execution_logs run).
Proof.
  destruct (execute_outcome tool_registry graph initial_state max_iterations)
    as (h & run & Hexec & _ & _ & Hcase).
  exists h, run. split; [done|]. intros i log Hi Hfail.
  assert (forall logs : list ExecutionLog.t,
            Forall (fun log => ExecutionLog.success log = true) logs ->
            logs !! i = Some log -> False) as Habsurd.
  { intros logs Hall Hl. rewrite Forall_forall in Hall.
    assert (log ∈ logs) as Hin by (apply list_elem_of_lookup; eauto).
    specialize (Hall log Hin). congruence. }
  destruct Hcase as [(_ & _ & Hall)|[(_ & pre & log' & Hl & Hall & _)
                                    |(_ & Hall & _)]].
  - destruct (Habsurd _ Hall Hi).
  - rewrite Hl in Hi. rewrite Hl, length_app. simpl.
    destruct (decide (i < length pre)%nat) as [Hlt|Hge].
    + rewrite lookup_app_l in Hi by done. destruct (Habsurd _ Hall Hi).
    + rewrite lookup_app_r in Hi by lia.
      destruct (i - length pre)%nat as [|k] eqn:Hk; [lia|].
      simpl in Hi. by rewrite lookup_nil in Hi.
  - destruct (Habsurd _ Hall Hi).
Qed.

Lemma follows_edges_snoc edges names c :
  follows_edges edges names ->
  (forall l, last names = Some l -> edge_between edges l c) ->
  follows_edges edges (names ++ [c]).
Proof.
  induction names as [|a [|b rest] IH]; simpl; intros Hf Hl.
  - done.
  - split; [by apply Hl|done].
  - destruct Hf as [Hab Hf]. split; [done|]. apply IH; [done|].
    intros l Hlast. by apply Hl.
Qed.

(** The log a pass appends, if any, has the name of the current node. *)
Lemma body_log_name s :
  passes s ->
  let c := default "" (current_node_name s) in
  let run' := control_run (body s) in
  (names_of run' = names_of (ls_run s)
   /\ control_heap (body s) = ls_heap s
   /\ control_run (body s) = ls_run s
   /\ (max_iterations <= Run.iteration_count (ls_run s)
       \/ node_map !! c = None)
   /\ exists e, body s = Raising (ls_heap s) (ls_run s) e)
  \/ (names_of run' = names_of (ls_run s) ++ [c]
      /\ is_Some (node_map !! c)
      /\ Run.iteration_count (ls_run s) < max_iterations
      /\ Run.current_node run' = Some c).
Proof.
  intros Hp c run'. subst c run'.
  destruct (loop_body_cases tool_registry adjacency_map node_map
              max_iterations s) as [[Hge Hb]|[(_ & Hnone & Hb)|Hb]].
  - left. rewrite Hb. simpl. repeat split; eauto.
  - left. rewrite Hb. simpl. repeat split; eauto.
  - right. destruct Hb as (node & h1 & log & Hlt & Hnode & Hexec & _).
    destruct (passes_store_ok tool_registry graph initial_state max_iterations
                s Hp) as [[Hd _] _].
    destruct (body_frame tool_registry adjacency_map node_map max_iterations
                s Hd) as (_ & _ & _ & _ & Hlogs).
    destruct Hlogs as [(_ & _ & [Hge|Hnone])|Hlog]; [lia|congruence|].
    destruct Hlog as (node' & log' & Hnode' & _ & Heq & Hname & _).
    apply node_map_name in Hnode' as [Hn _].
    split; [by rewrite Heq, fmap_app; simpl; rewrite Hname, Hn|].
    split; [by rewrite Hnode|]. split; [done|].
    destruct (body_run_fields tool_registry adjacency_map node_map
                max_iterations s) as (_ & _ & _ & [(h & e & Hr)|Hcur]);
      [|done].
    rewrite Hr in Heq. simpl in Heq.
    apply (f_equal length) in Heq. rewrite length_app in Heq. simpl in Heq.
    lia.
Qed.

(** X16. The nodes [execute] runs form a walk in the graph from the entry
    point: the first log, if any, is of the entry point, and every log after
    it is of the [to_node] of an edge whose [from_node] is the node of the
    log before. *)
Theorem logs_follow_edges :
  exists h run,
    execute tool_registry graph initial_state max_iterations = Some (h, run)
    /\ follows_edges (GraphDefinition.edges graph) (names_of run)
    /\ forall n, head (names_of run) = Some n ->
                 n = GraphDefinition.entry_point graph.
Proof.
  set (edges := GraphDefinition.edges graph).
  set (entry := GraphDefinition.entry_point graph).
  set (J := fun names : list string =>
              follows_edges edges names
              /\ forall n, head names = Some n -> n = entry).
  assert (forall names c,
            J names ->
            match last names with
            | None => c = entry
            | Some l => edge_between edges l c
            end ->
            J (names ++ [c])) as Hsnoc.
  { intros names c [Hf Hh] Hl. split.
    - apply follows_edges_snoc; [done|]. intros l Hlast.
      by rewrite Hlast in Hl.
    - intros n. destruct names as [|a rest]; simpl.
      + simpl in Hl. by intros [= <-].
      + apply Hh. }
  destruct (execute_rule tool_registry graph initial_state max_iterations
    (fun s => J (names_of (ls_run s))
              /\ exists c, current_node_name s = Some c
                 /\ match last (names_of (ls_run s)) with
                    | None => c = entry
                    | Some l => edge_between edges l c
                    end)
    (fun r => J (names_of r.1.2))) as (r & Hexec & HJ).
  - unfold initial_loop_state, dict_field, alloc. simpl.
    split; [by split|]. by exists entry.
  - intros s s' Hp (HJ & c & Hc & Hl) _ Hb.
    destruct (body_log_name s Hp) as [(_ & _ & _ & _ & e & He)|Hlog];
      [congruence|].
    destruct Hlog as (Hnames & _). rewrite Hb, Hc in Hnames. simpl in Hnames.
    rewrite Hnames. split; [by apply Hsnoc|].
    destruct (continue_edge tool_registry adjacency_map node_map
                max_iterations s s' Hb) as (next & e & Hnext & Hin & Hto).
    rewrite Hc in Hin. simpl in Hin.
    apply adjacency_edge in Hin as [Hin Hfrom].
    exists next. split; [done|]. rewrite last_snoc. by exists e.
  - by intros s _ [HJ _] _.
  - intros s h run Hp (HJ & c & Hc & Hl) _ Hb.
    destruct (body_log_name s Hp) as [(_ & _ & _ & _ & e & He)|Hlog];
      [congruence|].
    destruct Hlog as (Hnames & _). rewrite Hb, Hc in Hnames. simpl in *.
    rewrite Hnames. by apply Hsnoc.
  - intros s h run e Hp (HJ & _) _ Hb.
    destruct (body_log_name s Hp) as [(Hnames & _)|(_ & _ & Hlt & Hcur)].
    + rewrite Hb in Hnames. simpl in *. by rewrite Hnames.
    + apply raising_spec in Hb as (_ & -> & _). simpl in *. done.
  - exists (finish r).1, (finish r).2.
    split; [by rewrite Hexec; destruct (finish r)|].
    rewrite finish_logs. apply HJ.
Qed.

(** X17. A run has at most as many logs as the graph has nodes plus the
    iteration cap: a node is either run for the first time or run again at
    the price of one counted iteration. *)
Theorem log_count_bound :
  exists h run,
    execute tool_registry graph initial_state max_iterations = Some (h, run)
    /\ (length (Run.execution_logs run)
        <= length (GraphDefinition.nodes graph) + Z.to_nat max_iterations)%nat.
Proof.
  set (bound := (size (dom node_map) + Z.to_nat max_iterations)%nat).
  destruct (execute_rule tool_registry graph initial_state max_iterations
    (fun s => (length (Run.execution_logs (ls_run s))
               + potential node_map max_iterations s <= bound)%nat)
    (fun r => (length (Run.execution_logs r.1.2) <= bound)%nat))
    as (r & Hexec & Hbound).
  - unfold potential, initial_loop_state, dict_field, alloc, bound. simpl.
    rewrite bool_decide_eq_false_2 by set_solver.
    rewrite difference_empty_L, Z.sub_0_r. lia.
  - intros s s' _ HI _ Hb.
    pose proof (potential_decreases tool_registry adjacency_map node_map
                  max_iterations s s' Hb) as Hless.
    apply continue_spec in Hb
      as (_ & _ & _ & _ & _ & _ & _ & _ & _ & _ & log & -> & _).
    rewrite length_app. simpl. lia.
  - intros s _ HI _. simpl. lia.
  - intros s h run _ HI _ Hb.
    apply break_spec in Hb as (_ & Hlt & _ & _ & log & Hlogs & _). simpl.
    rewrite Hlogs, length_app. simpl.
    assert (1 <= potential node_map max_iterations s)%nat; [|lia].
    unfold potential. lia.
  - intros s h run e _ HI _ Hb.
    apply raising_spec in Hb as (_ & -> & _). simpl. lia.
  - exists (finish r).1, (finish r).2.
    split; [by rewrite Hexec; destruct (finish r)|].
    rewrite finish_logs.
    pose proof (size_build_node_map (GraphDefinition.nodes graph)).
    unfold bound in Hbound. lia.
Qed.

(** X18. [current_node] of the returned run names the last node that was
    run, also when the run stopped at a successor that is not a node of the
    graph or at the iteration cap; it is the entry point when no node was
    run. *)
Theorem current_node_is_last_run :
  exists h run,
    execute tool_registry graph initial_state max_iterations = Some (h, run)
    /\ Run.current_node run
       = Some (default (GraphDefinition.entry_point graph)
                       (last (names_of run))).
Proof.
  set (entry := GraphDefinition.entry_point graph).
  set (J := fun run => Run.current_node run
                        = Some (default entry (last (names_of run)))).
  assert (forall s, passes s -> J (ls_run s) -> J (control_run (body s)))
    as Hstep.
  { intros s Hp HJ.
    destruct (body_log_name s Hp) as [(_ & _ & -> & _)|(Hnames & _ & _ & Hc)];
      [done|].
    unfold J. by rewrite Hnames, last_snoc, Hc. }
  destruct (execute_rule tool_registry graph initial_state max_iterations
    (fun s => J (ls_run s)) (fun r => J r.1.2)) as (r & Hexec & HJ).
  - unfold J, initial_loop_state, dict_field, alloc. done.
  - intros s s' Hp HI _ Hb. specialize (Hstep s Hp HI). by rewrite Hb in Hstep.
  - by intros s _ HI _.
  - intros s h run Hp HI _ Hb. specialize (Hstep s Hp HI).
    by rewrite Hb in Hstep.
  - intros s h run e Hp HI _ Hb. specialize (Hstep s Hp HI).
    by rewrite Hb in Hstep.
  - exists (finish r).1, (finish r).2.
    split; [by rewrite Hexec; destruct (finish r)|].
    rewrite finish_logs. unfold J in HJ. rewrite <- HJ.
    by destruct r as [[h run] [e|]].
Qed.

Lemma while_loop_falsy fuel s :
  opt_truthy (current_node_name s) = false ->
  while_loop fuel tool_registry adjacency_map node_map max_iterations s
  = Some (ls_heap s, ls_run s, None).
Proof. intros Hf. destruct fuel; simpl; by rewrite Hf. Qed.

Lemma entry_truthy :
  GraphDefinition.entry_point graph ≠ "" ->
  opt_truthy (current_node_name init) = true.
Proof.
  intros Hne. unfold initial_loop_state, dict_field, alloc. simpl.
  unfold str_truthy. apply negb_true_iff. by apply String.eqb_neq.
Qed.

Lemma init_payload :
  deref (ls_heap init) (data (Run.current_state (ls_run init)))
  = initial_state.
Proof. unfold initial_loop_state, dict_field, alloc. done. Qed.

(** X19. When the entry point is the empty string, the loop is never
    entered: the run is COMPLETED with no log, no error, no counted
    iteration, and the payload holds the initial state. *)
Theorem empty_entry_point_completes :
  GraphDefinition.entry_point graph = "" ->
  exists h run,
    execute tool_registry graph initial_state max_iterations = Some (h, run)
    /\ Run.status run = COMPLETED
    /\ Run.error run = None
    /\ Run.execution_logs run = []
    /\ Run.iteration_count run = 0
    /\ deref h (data (Run.current_state run)) = initial_state.
Proof.
  intros Hentry.
  assert (opt_truthy (current_node_name init) = false) as Hfalsy.
  { unfold initial_loop_state, dict_field, alloc. simpl. by rewrite Hentry. }
  exists (ls_heap init), (finish (ls_heap init, ls_run init, None)).2.
  split.
  { unfold execute.
    by rewrite (while_loop_falsy (enough_fuel graph max_iterations) init
                  Hfalsy). }
  pose proof init_payload as Hp.
  unfold initial_loop_state, dict_field, alloc in *. simpl in *. done.
Qed.

(** X20. With a cap that is zero or negative and an entry point that is not
    the empty string, no node is run: the run is FAILED with the message of
    the iteration cap, whether or not the entry point is a node of the
    graph. *)
Theorem cap_not_positive_fails :
  GraphDefinition.entry_point graph ≠ "" ->
  max_iterations <= 0 ->
  exists h run,
    execute tool_registry graph initial_state max_iterations = Some (h, run)
    /\ Run.status run = FAILED
    /\ Run.error run = Some (cap_message max_iterations)
    /\ Run.execution_logs run = []
    /\ deref h (data (Run.current_state run)) = initial_state.
Proof.
  intros Hentry Hmax.
  destruct (loop_body_cases tool_registry adjacency_map node_map
              max_iterations init) as [[_ Hb]|[(Hlt & _)|Hb]].
  - exists (ls_heap init),
      (finish (ls_heap init, ls_run init,
               Some (RuntimeError (cap_message max_iterations)))).2.
    split.
    { unfold execute, enough_fuel. rewrite Nat.add_1_r.
      by rewrite (while_loop_raising tool_registry adjacency_map node_map
                    max_iterations _ init _ _ _ (entry_truthy Hentry) Hb). }
    pose proof init_payload as Hp.
    unfold initial_loop_state, dict_field, alloc in *. simpl in *. done.
  - unfold initial_loop_state, dict_field, alloc in Hlt. simpl in Hlt. lia.
  - destruct Hb as (node & h1 & log & Hlt & _).
    unfold initial_loop_state, dict_field, alloc in Hlt. simpl in Hlt. lia.
Qed.

(** X21. With a positive cap and an entry point that is not the empty
    string and names no node of the graph, no node is run: the run is FAILED
    with the message that the entry point was not found. *)
Theorem unknown_entry_point_fails :
  GraphDefinition.entry_point graph ≠ "" ->
  0 < max_iterations ->
  GraphDefinition.entry_point graph
    ∉ name <$> GraphDefinition.nodes graph ->
  exists h run,
    execute tool_registry graph initial_state max_iterations = Some (h, run)
    /\ Run.status run = FAILED
    /\ Run.error run
       = Some (unknown_node_message (GraphDefinition.entry_point graph))
    /\ Run.execution_logs run = []
    /\ deref h (data (Run.current_state run)) = initial_state.
Proof.
  intros Hentry Hmax Hout. apply node_map_none in Hout.
  destruct (loop_body_cases tool_registry adjacency_map node_map
              max_iterations init) as [[Hge _]|[(_ & _ & Hb)|Hb]].
  - unfold initial_loop_state, dict_field, alloc in Hge. simpl in Hge. lia.
  - exists (ls_heap init),
      (finish (ls_heap init, ls_run init,
               Some (ValueError
                       (unknown_node_message
                          (default "" (current_node_name init)))))).2.
    split.
    { unfold execute, enough_fuel. rewrite Nat.add_1_r.
      by rewrite (while_loop_raising tool_registry adjacency_map node_map
                    max_iterations _ init _ _ _ (entry_truthy Hentry) Hb). }
    pose proof init_payload as Hp.
    unfold initial_loop_state, dict_field, alloc in *. simpl in *. done.
  - destruct Hb as (node & h1 & log & _ & Hnode & _).
    unfold initial_loop_state, dict_field, alloc in Hnode. simpl in Hnode.
    congruence.
Qed.

(** X22. With a positive cap and an entry point that is a node of the
    graph, the run has a first log: it is of the entry point, and in the
    returned store its [input_state] holds the initial state the caller
    passed, whatever the nodes that ran afterwards did. *)
Theorem entry_node_runs_first :
  GraphDefinition.entry_point graph ≠ "" ->
  0 < max_iterations ->
  GraphDefinition.entry_point graph ∈ name <$> GraphDefinition.nodes graph ->
  exists h run log,
    execute tool_registry graph initial_state max_iterations = Some (h, run)
    /\ Run.execution_logs run !! 0%nat = Some log
    /\ ExecutionLog.node_name log = GraphDefinition.entry_point graph
    /\ deref h (ExecutionLog.input_state log) = initial_state.
Proof.
  intros Hentry Hmax Hin.
  set (entry := GraphDefinition.entry_point graph) in *.
  assert (is_Some (node_map !! entry)) as Hnode.
  { destruct (node_map !! entry) eqn:Hn; [done|].
    apply node_map_none in Hn. done. }
  set (J := fun (h : heap) (run : Run.t) =>
              exists log, Run.execution_logs run !! 0%nat = Some log
                          /\ ExecutionLog.node_name log = entry
                          /\ deref h (ExecutionLog.input_state log)
                             = initial_state).
  set (I := fun s =>
              J (ls_heap s) (ls_run s)
              \/ (Run.execution_logs (ls_run s) = []
                  /\ current_node_name s = Some entry
                  /\ Run.iteration_count (ls_run s) = 0
                  /\ deref (ls_heap s) (data (Run.current_state (ls_run s)))
                     = initial_state)).
  assert (forall s, passes s -> I s ->
            J (control_heap (body s)) (control_run (body s))) as Hstep.
  { intros s Hp HI.
    destruct (passes_store_ok tool_registry graph initial_state max_iterations
                s Hp) as [[Hd Hplaced] _].
    destruct (body_frame tool_registry adjacency_map node_map max_iterations
                s Hd) as (_ & _ & _ & Hold & Hlogs).
    destruct HI as [(log0 & Hat & Hname & Hcontent)
                   |(Hnil & Hcur & Hcount & Hcontent)].
    - exists log0.
      assert (log0 ∈ Run.execution_logs (ls_run s)) as Hin0
        by (apply list_elem_of_lookup; eauto).
      rewrite Forall_forall in Hplaced.
      destruct (Hplaced log0 Hin0) as (Hi & _ & Hne & _).
      split.
      { destruct Hlogs as [(-> & _)|(node & log & _ & _ & -> & _)]; [done|].
        rewrite lookup_app_l; [done|]. by apply lookup_lt_Some in Hat. }
      split; [done|]. rewrite Hold by done. done.
    - rewrite Hcur in Hlogs. simpl in Hlogs.
      destruct Hlogs as [(_ & _ & [Hge|Hnone])|Hlog].
      + lia.
      + rewrite Hnone in Hnode. by destruct Hnode.
      + destruct Hlog as (node & log & Hn & _ & Heq & Hname & _ & _ & _ & _
                          & Hsnap).
        apply node_map_name in Hn as [Hn _].
        exists log. rewrite Heq, Hnil. simpl.
        split; [done|]. split; [congruence|]. by rewrite Hsnap. }
  destruct (execute_rule tool_registry graph initial_state max_iterations
    I (fun r => J r.1.1 r.1.2)) as (r & Hexec & log & Hat & Hname & Hcontent).
  - right. pose proof init_payload as Hp.
    unfold initial_loop_state, dict_field, alloc in *. simpl in *. done.
  - intros s s' Hp HI _ Hb. left. specialize (Hstep s Hp HI).
    by rewrite Hb in Hstep.
  - intros s _ [HJ|(_ & Hcur & _)] Hfalsy; [done|].
    rewrite Hcur in Hfalsy. simpl in Hfalsy.
    unfold str_truthy in Hfalsy. apply negb_false_iff in Hfalsy.
    by apply String.eqb_eq in Hfalsy.
  - intros s h run Hp HI _ Hb. specialize (Hstep s Hp HI).
    by rewrite Hb in Hstep.
  - intros s h run e Hp HI _ Hb. specialize (Hstep s Hp HI).
    by rewrite Hb in Hstep.
  - exists (finish r).1, (finish r).2, log.
    split; [by rewrite Hexec; destruct (finish r)|].
    by rewrite finish_heap, finish_logs.
Qed.

(** *** Graphs accepted by [create_graph] *)

Lemma create_graph_sound request :
  Routes.create_graph request = inr graph ->
  GraphDefinition.entry_point graph ∈ name <$> GraphDefinition.nodes graph
  /\ Forall (fun e => to_node e ∈ name <$> GraphDefinition.nodes graph)
            (GraphDefinition.edges graph).
Proof.
  unfold Routes.create_graph.
  set (node_names :=
         list_to_set (C := gset string)
           (name <$> CreateGraphRequest.nodes request)).
  destruct (bool_decide (CreateGraphRequest.entry_point request ∈ node_names))
    eqn:He; simpl; [|discriminate].
  apply bool_decide_eq_true in He.
  destruct (Routes.check_edges node_names (CreateGraphRequest.edges request))
    as [e|] eqn:Hc; [discriminate|].
  intros [= <-]. simpl.
  apply check_edges_none in Hc.
  split; [by apply elem_of_list_to_set in He|].
  eapply Forall_impl; [apply Hc|]. simpl.
  intros e [_ Hto]. by apply elem_of_list_to_set in Hto.
Qed.

(** X24. A graph that [create_graph] accepted never sends the engine to a
    node that does not exist: every node name the loop arrives at is a node
    of the graph, so the run is FAILED only by the iteration cap, with its
    message and a counter that has reached the cap. *)
Theorem accepted_graph_fails_only_by_cap request :
  Routes.create_graph request = inr graph ->
  (forall s, passes s ->
     exists c, current_node_name s = Some c /\ is_Some (node_map !! c))
  /\ exists h run,
       execute tool_registry graph initial_state max_iterations
       = Some (h, run)
       /\ (Run.status run = FAILED ->
             Run.error run = Some (cap_message max_iterations)
             /\ max_iterations <= Run.iteration_count run).
Proof.
  intros Hcreate. apply create_graph_sound in Hcreate as [Hentry Hedges].
  set (I := fun s => exists c, current_node_name s = Some c
                               /\ is_Some (node_map !! c)).
  assert (forall c, c ∈ name <$> GraphDefinition.nodes graph ->
                    is_Some (node_map !! c)) as Hfound.
  { intros c Hin. destruct (node_map !! c) eqn:Hn; [done|].
    apply node_map_none in Hn. done. }
  assert (I init) as Hinit.
  { exists (GraphDefinition.entry_point graph). split; [|by apply Hfound].
    unfold initial_loop_state, dict_field, alloc. done. }
  assert (forall s s', I s -> body s = Continue s' -> I s') as Hcont.
  { intros s s' _ Hb.
    destruct (continue_edge tool_registry adjacency_map node_map
                max_iterations s s' Hb) as (next & e & Hnext & Hin & Hto).
    apply adjacency_edge in Hin as [Hin _].
    exists next. split; [done|]. apply Hfound. subst next.
    rewrite Forall_forall in Hedges. by apply Hedges. }
  split.
  { apply (reachable_invariant tool_registry adjacency_map node_map
             max_iterations I); [done|].
    intros s s' HI _ Hb. by apply (Hcont s). }
  destruct (execute_rule tool_registry graph initial_state max_iterations I
    (fun r => match r.2 with
              | None => True
              | Some e => e = RuntimeError (cap_message max_iterations)
                          /\ max_iterations <= Run.iteration_count r.1.2
              end)) as (r & Hexec & Hr).
  - done.
  - intros s s' _ HI _ Hb. by apply (Hcont s).
  - done.
  - done.
  - intros s h run e Hp (c & Hc & Hsome) _ Hb. simpl.
    pose proof Hb as Hb'.
    apply raising_spec in Hb' as (_ & Hrun & [[Hge He]|[Hlt _]]);
      [by subst|].
    exfalso.
    destruct (body_log_name s Hp) as [(_ & _ & _ & [Hge|Hnone] & _)
                                     |(Hnames & _)].
    + lia.
    + rewrite Hc in Hnone. simpl in Hnone. rewrite Hnone in Hsome.
      by destruct Hsome.
    + rewrite Hb in Hnames. simpl in Hnames. subst run.
      apply (f_equal length) in Hnames.
      rewrite length_app in Hnames. simpl in Hnames. lia.
  - exists (finish r).1, (finish r).2.
    split; [by rewrite Hexec; destruct (finish r)|].
    destruct r as [[h run] [e|]]; simpl in *.
    + intros _. by destruct Hr as [-> Hge].
    + discriminate.
Qed.

(** *** The counter *)



(** *** Conditions that only read the payload *)

Hypothesis conditions_read_only : forall c p, (py_eval c p).1 = p.









End MoreRuns.

(** ** The further properties at concrete inputs *)

Section ConcreteProperties.
Import WorkflowState NodeDefinition EdgeDefinition GraphEngine Props Traces.
Import ToolRegistry CodeReview Scenario Samples.
#[local] Existing Instance Scenario.runtime.


Lemma register_keeps_others_witness :
  register identity_registry "boom" (Callable boom) false
  = Return (<["boom" := boom]> identity_registry)
  /\ exists_ (<["boom" := boom]> identity_registry) "boom" = true.
Proof.
  assert (register identity_registry "boom" (Callable boom) false
          = Return (<["boom" := boom]> identity_registry)) as Hreg
    by (vm_compute; reflexivity).
  split; [exact Hreg|].
  exact (proj1 (register_keeps_others _ _ _ _ _ Hreg)).
Defined.

Lemma register_unregister_round_trip_witness :
  identity_registry !! "boom" = None
  /\ exists tools',
       register_tool identity_registry "boom" (Callable boom) = Return tools'
       /\ unregister tools' "boom" = Return identity_registry.
Proof.
  assert (identity_registry !! "boom" = None) as Hfree
    by (vm_compute; reflexivity).
  split; [exact Hfree|].
  exact (register_unregister_round_trip identity_registry "boom" boom Hfree).
Defined.

Lemma code_review_tools_resolve_witness :
  register_code_review_tools review_registry = Return tt
  /\ Forall (fun node =>
               node_type node = FUNCTION
               /\ exists tn f,
                    tool_name node = Some tn
                    /\ opt_truthy (tool_name node) = true
                    /\ ToolRegistry.get review_registry tn = Return f)
            (GraphDefinition.nodes create_code_review_graph).
Proof.
  assert (register_code_review_tools review_registry = Return tt) as Hchecked
    by (vm_compute; reflexivity).
  split; [exact Hchecked|].
  exact (code_review_tools_resolve review_registry Hchecked).
Defined.

Lemma pass_through_node_witness :
  let '(h', log) :=
    _execute_node ∅ one_mapping conditional_node (WorkflowState.mk 0 ∅) 0 in
  ExecutionLog.success log = true
  /\ ExecutionLog.error log = None
  /\ ExecutionLog.node_name log = "C"
  /\ deref h' (ExecutionLog.input_state log) = {[ "x" := PyInt 1 ]}
  /\ deref h' (ExecutionLog.output_state log) = {[ "x" := PyInt 1 ]}
  /\ deref h' 0%nat = {[ "x" := PyInt 1 ]}.
Proof.
  assert (node_type conditional_node ≠ FUNCTION) as Htype
    by (simpl; discriminate).
  assert (data (WorkflowState.mk 0 ∅) < length one_mapping)%nat as Hstate
    by (simpl; lia).
  exact (pass_through_node ∅ one_mapping conditional_node
           (WorkflowState.mk 0 ∅) 0 Htype Hstate).
Defined.

Lemma function_node_outcomes_witness :
  let '(h', log) :=
    _execute_node boom_registry one_mapping (function_node "A" "boom")
                  (WorkflowState.mk 0 ∅) 0 in
  deref h' (ExecutionLog.input_state log) = {[ "x" := PyInt 1 ]}
  /\ deref h' 0%nat = <["x" := PyInt 2]> {[ "x" := PyInt 1 ]}
  /\ ExecutionLog.success log = false
  /\ ExecutionLog.error log = Some "boom"
  /\ deref h' (ExecutionLog.output_state log) = {[ "x" := PyInt 1 ]}.
Proof.
  assert (node_type (function_node "A" "boom") = FUNCTION) as Htype
    by reflexivity.
  assert (opt_truthy (tool_name (function_node "A" "boom")) = true) as Htool
    by reflexivity.
  assert (boom_registry !! default "" (tool_name (function_node "A" "boom"))
          = Some boom) as Hf by (vm_compute; reflexivity).
  assert (data (WorkflowState.mk 0 ∅) < length one_mapping)%nat as Hstate
    by (simpl; lia).
  pose proof (function_node_outcomes boom_registry one_mapping
                (function_node "A" "boom") (WorkflowState.mk 0 ∅) 0 boom
                Htype Htool Hf Hstate) as Hout.
  simpl in Hout.
  destruct (_execute_node boom_registry one_mapping (function_node "A" "boom")
              (WorkflowState.mk 0 ∅) 0) as [h' log].
  destruct Hout as (Hin & Hpayload & _ & _ & _ & Hraises).
  destruct (Hraises "boom" eq_refl) as (Hfail & Herr & Hkept).
  repeat split; assumption.
Defined.


Lemma empty_entry_point_completes_witness :
  exists h run,
    execute identity_registry empty_entry_graph {[ "x" := PyInt 1 ]} 10
    = Some (h, run)
    /\ Run.status run = COMPLETED
    /\ Run.error run = None
    /\ Run.execution_logs run = []
    /\ Run.iteration_count run = 0
    /\ deref h (data (Run.current_state run)) = {[ "x" := PyInt 1 ]}.
Proof.
  exact (empty_entry_point_completes identity_registry empty_entry_graph
           {[ "x" := PyInt 1 ]} 10 eq_refl).
Defined.

Lemma cap_not_positive_fails_witness :
  exists h run,
    execute identity_registry loop_graph {[ "x" := PyInt 1 ]} 0
    = Some (h, run)
    /\ Run.status run = FAILED
    /\ Run.error run = Some (cap_message 0)
    /\ Run.execution_logs run = []
    /\ deref h (data (Run.current_state run)) = {[ "x" := PyInt 1 ]}.
Proof.
  assert (GraphDefinition.entry_point loop_graph ≠ "") as Hentry
    by (simpl; discriminate).
  assert (0 <= 0) as Hcap by lia.
  exact (cap_not_positive_fails identity_registry loop_graph
           {[ "x" := PyInt 1 ]} 0 Hentry Hcap).
Defined.

Lemma unknown_entry_point_fails_witness :
  exists h run,
    execute identity_registry stray_entry_graph {[ "x" := PyInt 1 ]} 10
    = Some (h, run)
    /\ Run.status run = FAILED
    /\ Run.error run = Some (unknown_node_message "Z")
    /\ Run.execution_logs run = []
    /\ deref h (data (Run.current_state run)) = {[ "x" := PyInt 1 ]}.
Proof.
  assert (GraphDefinition.entry_point stray_entry_graph ≠ "") as Hentry
    by (simpl; discriminate).
  assert (0 < 10) as Hcap by lia.
  assert (GraphDefinition.entry_point stray_entry_graph
            ∉ name <$> GraphDefinition.nodes stray_entry_graph) as Hout.
  { simpl. apply not_elem_of_cons. split; [discriminate|].
    apply not_elem_of_nil. }
  exact (unknown_entry_point_fails identity_registry stray_entry_graph
           {[ "x" := PyInt 1 ]} 10 Hentry Hcap Hout).
Defined.

Lemma entry_node_runs_first_witness :
  exists h run log,
    execute identity_registry loop_graph {[ "x" := PyInt 1 ]} 3
    = Some (h, run)
    /\ Run.execution_logs run !! 0%nat = Some log
    /\ ExecutionLog.node_name log = "A"
    /\ deref h (ExecutionLog.input_state log) = {[ "x" := PyInt 1 ]}.
Proof.
  assert (GraphDefinition.entry_point loop_graph ≠ "") as Hentry
    by (simpl; discriminate).
  assert (0 < 3) as Hcap by lia.
  assert (GraphDefinition.entry_point loop_graph
            ∈ name <$> GraphDefinition.nodes loop_graph) as Hin
    by (simpl; apply list_elem_of_here).
  exact (entry_node_runs_first identity_registry loop_graph
           {[ "x" := PyInt 1 ]} 3 Hentry Hcap Hin).
Defined.


Lemma accepted_graph_fails_only_by_cap_witness :
  Routes.create_graph loop_request = inr loop_request_graph
  /\ exists h run,
       execute identity_registry loop_request_graph {[ "x" := PyInt 1 ]} 3
       = Some (h, run)
       /\ (Run.status run = FAILED ->
             Run.error run = Some (cap_message 3)
             /\ 3 <= Run.iteration_count run).
Proof.
  assert (Routes.create_graph loop_request = inr loop_request_graph)
    as Hcreate by (vm_compute; reflexivity).
  split; [exact Hcreate|].
  exact (proj2 (accepted_graph_fails_only_by_cap identity_registry
                  loop_request_graph {[ "x" := PyInt 1 ]} 3 loop_request
                  Hcreate)).
Defined.

End ConcreteProperties.
